(** * Batching and epoch iteration of fairseq (StackingBERT)

    A shallow embedding of
    - [fairseq/data/data_utils.py]: [numpy_seed], [batch_by_size];
    - [fairseq/data/iterators.py]: [CountingIterator], [ShardedIterator],
      [EpochBatchIterator];
    followed by the properties of the batching engine.

    Python integers are [Z]; [//] and [%] are [Z.div] and [Z.modulo], which
    round like Python's (towards minus infinity, remainder with the sign of
    the divisor).  Python lists and tuples are [list]s.  An optional limit
    ([None], turned by the source into [float('Inf')]) is an [option Z]. *)

From Stdlib Require Import ZArith List Lia Permutation Bool.
From Stdlib Require Ascii String.
From stdpp Require Import base option list gmap strings.

Open Scope Z_scope.

(** ** Python values shared by both files *)

(** The exceptions the modelled code can raise. *)
Inductive exn : Type :=
| ValueError
| KeyError
| ZeroDivisionError
| OverflowError
| StopIteration
| AttributeError
| Dangling.
(** [Dangling] is not a Python exception: it is the model's answer when a
    reference outside the object store is followed, which no Python program
    can do; it keeps the store operations total without inventing a value. *)

(** The outcome of a call: a value or a raised exception. *)
Inductive result (A : Type) : Type :=
| Ok (a : A)
| Raise (e : exn).
Arguments Ok {A} a.
Arguments Raise {A} e.

(** [len(l)] *)
Definition len {A : Type} (l : list A) : Z := Z.of_nat (length l).

(** [sys.maxsize], the largest index CPython handles (a 64-bit build).  The
    length of a Python sequence never exceeds it. *)
Definition sys_maxsize : Z := 2 ^ 63 - 1.

(** Python normalises a slice bound: a negative bound counts from the end,
    and the result is clamped to [0 .. len]. *)
Definition slice_bound (n i : Z) : nat :=
  Z.to_nat (if i <? 0 then Z.max 0 (n + i) else Z.min i n).

(** [l[:i]] *)
Definition slice_to {A : Type} (l : list A) (i : Z) : list A :=
  firstn (slice_bound (len l) i) l.

(** [l[i:]] *)
Definition slice_from {A : Type} (l : list A) (i : Z) : list A :=
  skipn (slice_bound (len l) i) l.

(** [list(range(n))] for [n : nat] *)
Definition range_list (n : nat) : list Z := map Z.of_nat (seq 0 n).

(** [max(l)] for a non-empty list of integers (the source guards the call) *)
Definition py_max (l : list Z) : Z :=
  match l with
  | [] => 0
  | x :: r => fold_left Z.max r x
  end.

(** A finished run of a generator: the values it yielded, in order, ending
    with normal exhaustion or with an exception. *)
Inductive gen (A : Type) : Type :=
| GStop
| GYield (a : A) (k : gen A)
| GRaise (e : exn).
Arguments GStop {A}.
Arguments GYield {A} a k.
Arguments GRaise {A} e.

Fixpoint yielded {A : Type} (g : gen A) : list A :=
  match g with
  | GYield a k => a :: yielded k
  | _ => []
  end.

Fixpoint raised {A : Type} (g : gen A) : option exn :=
  match g with
  | GStop => None
  | GYield _ k => raised k
  | GRaise e => Some e
  end.

(** ** data_utils.py *)

Module DataUtils.

Section BatchBySize.
Variable num_tokens_fn : Z -> Z.
(** [None] is the source's [float('Inf')]. *)
Variables max_tokens max_sentences : option Z.
Variable bsz_mult : Z.

(** [len(batch) == max_sentences] *)
Definition eq_limit (n : Z) (lim : option Z) : bool :=
  match lim with Some m => n =? m | None => false end.

(** [num_tokens > max_tokens] *)
Definition gt_limit (n : Z) (lim : option Z) : bool :=
  match lim with Some m => m <? n | None => false end.

Definition is_batch_full (batch : list Z) (num_tokens : Z) : bool :=
  if len batch =? 0 then false
  else if eq_limit (len batch) max_sentences then true
  else if gt_limit num_tokens max_tokens then true
  else false.

Definition mod_len_of (batch : list Z) : Z :=
  Z.max (bsz_mult * (len batch / bsz_mult)) (len batch mod bsz_mult).

(** The [for idx in indices] loop and the trailing [yield], from the state
    [(batch, sample_len, sample_lens)] the loop variables hold. *)
Fixpoint batch_loop (indices batch : list Z) (sample_len : Z)
         (sample_lens : list Z) : gen (list Z) :=
  match indices with
  | [] => if 0 <? len batch then GYield batch GStop else GStop
  | idx :: rest =>
      let sample_lens := sample_lens ++ [num_tokens_fn idx] in
      let sample_len := Z.max sample_len (List.last sample_lens 0) in
      let num_tokens := (len batch + 1) * sample_len in
      if is_batch_full batch num_tokens then
        if bsz_mult =? 0 then GRaise ZeroDivisionError
        else
          let mod_len := mod_len_of batch in
          GYield (slice_to batch mod_len)
            (let batch := slice_from batch mod_len in
             let sample_lens := slice_from sample_lens mod_len in
             let sample_len :=
               if 0 <? len sample_lens then py_max sample_lens else 0 in
             batch_loop rest (batch ++ [idx]) sample_len sample_lens)
      else batch_loop rest (batch ++ [idx]) sample_len sample_lens
  end.

Definition batch_by_size (indices : list Z) : gen (list Z) :=
  batch_loop indices [] 0 [].
End BatchBySize.

(** *** What the limits ask of a batch *)

(** [len(batch) <= max_sentences] and
    [len(batch) * (largest size in the batch) <= max_tokens]. *)
Definition respects_budget (num_tokens_fn : Z -> Z) (max_tokens max_sentences : Z)
           (batch : list Z) : Prop :=
  len batch <= max_sentences /\
  len batch * py_max (map num_tokens_fn batch) <= max_tokens.

(** A batch of one example that is larger than [max_tokens] by itself. *)
Definition singleton_overflow (num_tokens_fn : Z -> Z) (max_tokens : Z)
           (batch : list Z) : Prop :=
  exists i, batch = [i] /\ max_tokens < num_tokens_fn i.

(** What the loop keeps true of its candidate [batch], [sample_len] and
    [sample_lens] as long as no index is carried over from a closed batch. *)
Definition candidate_ok (num_tokens_fn : Z -> Z) (max_tokens max_sentences : Z)
           (batch : list Z) (sample_len : Z) (sample_lens : list Z) : Prop :=
  len sample_lens = len batch /\
  len batch <= max_sentences /\
  (forall x, In x batch -> num_tokens_fn x <= sample_len) /\
  (len batch <= 1 \/ len batch * sample_len <= max_tokens).

(** The batch length is an exact multiple of [required_batch_size_multiple]. *)
Definition multiple_of (bsz_mult : Z) (batch : list Z) : Prop :=
  len batch mod bsz_mult = 0.

(** Every batch but the last one yielded. *)
Definition non_final (batches : list (list Z)) : list (list Z) :=
  removelast batches.

(** Size functions of the worked examples. *)
Definition size_mod3 (i : Z) : Z := i mod 3 + 1.
Definition size_one_big (i : Z) : Z := if i =? 3 then 5 else 1.

(** *** The process-global NumPy generator

    NumPy is an external collaborator.  Its generator state is an abstract
    type; [np.random.seed(s)] puts the generator in a state that is a
    function of [s] alone, and [np.random.shuffle] permutes a list as a
    function of the current state and advances the state. *)
Class NumpyRandom : Type := {
  rng_state : Type;
  seed_state : Z -> rng_state;
  shuffle_with : rng_state -> list (list Z) -> list (list Z) * rng_state
}.

(** [np.random.seed] accepts [0 <= s < 2**32] and raises [ValueError]
    otherwise, before touching the generator. *)
Definition seed_ok (s : Z) : bool := (0 <=? s) && (s <? 2 ^ 32).

Section NumpySeed.
Context {R : NumpyRandom}.
(** The rest of the process state, which the generator calls leave alone. *)
Context {Store : Type}.

(** What a process holds: the global generator and an object store. *)
Record world : Type := World { heap : Store; rng : rng_state }.

(** A computation that reads and writes the world and may raise. *)
Definition M (A : Type) : Type := world -> result A * world.

Definition ret {A : Type} (a : A) : M A := fun w => (Ok a, w).

Definition raise {A : Type} (e : exn) : M A := fun w => (Raise e, w).

Definition bind {A B : Type} (m : M A) (k : A -> M B) : M B :=
  fun w =>
    match m w with
    | (Ok a, w') => k a w'
    | (Raise e, w') => (Raise e, w')
    end.

(** [np.random.get_state()] *)
Definition np_random_get_state : M rng_state :=
  fun w => (Ok (rng w), w).

(** [np.random.set_state(state)] *)
Definition np_random_set_state (state : rng_state) : M unit :=
  fun w => (Ok tt, World (heap w) state).

(** [np.random.seed(seed)] *)
Definition np_random_seed (seed : Z) : M unit :=
  fun w =>
    if seed_ok seed then (Ok tt, World (heap w) (seed_state seed))
    else (Raise ValueError, w).

(** [np.random.shuffle(batches)]; the list is local to the caller, so the
    shuffled list is returned. *)
Definition np_random_shuffle (batches : list (list Z)) : M (list (list Z)) :=
  fun w =>
    let (batches', g) := shuffle_with (rng w) batches in
    (Ok batches', World (heap w) g).

(** [with numpy_seed(seed): body].  The [finally] clause runs whether the
    body returns or raises; a [seed] that [np.random.seed] rejects raises
    before the [try]. *)
Definition numpy_seed {A : Type} (seed : option Z) (body : M A) : M A :=
  match seed with
  | None => body
  | Some s =>
      bind np_random_get_state (fun state =>
      bind (np_random_seed s) (fun _ =>
      fun w =>
        let (r, w') := body w in
        (r, snd (np_random_set_state state w'))))
  end.
End NumpySeed.

Arguments world {R} Store.
Arguments M {R} Store A.

End DataUtils.

(** ** iterators.py *)

Module Iterators.
Import DataUtils.

(** *** itertools *)

(** [range(n)] *)
Definition range (n : Z) : list Z := map Z.of_nat (seq 0 (Z.to_nat n)).

(** The items [itertools.islice(l, start, stop, step)] yields when it is
    run to its end: [i] is the position of the head of [l] in the underlying
    sequence and [next] the position of the next item to yield. *)
Fixpoint islice_go {A : Type} (l : list A) (i next stop step : nat) : list A :=
  match l with
  | [] => []
  | x :: l' =>
      if (stop <=? i)%nat then []
      else if (i =? next)%nat
           then x :: islice_go l' (S i) (next + step)%nat stop step
           else islice_go l' (S i) next stop step
  end.

(** [islice] raises [ValueError] unless
    [0 <= start, stop <= sys.maxsize] and [1 <= step <= sys.maxsize]. *)
Definition islice {A : Type} (l : list A) (start stop step : Z)
  : result (list A) :=
  if (start <? 0) || (stop <? 0) || (step <? 1)
     || (sys_maxsize <? start) || (sys_maxsize <? stop)
     || (sys_maxsize <? step)
  then Raise ValueError
  else Ok (islice_go l 0 (Z.to_nat start) (Z.to_nat stop) (Z.to_nat step)).

(** [itertools.zip_longest(xs, ys, fillvalue=v)]: a slot that holds the
    fill value is [None]. *)
Fixpoint zip_longest {X Y : Type} (xs : list X) (ys : list Y)
  : list (option X * option Y) :=
  match xs with
  | [] => map (fun y => (None, Some y)) ys
  | x :: xs' =>
      match ys with
      | [] => (Some x, None) :: zip_longest xs' []
      | y :: ys' => (Some x, Some y) :: zip_longest xs' ys'
      end
  end.

(** *** Sized iterables

    What [CountingIterator] asks of the object it wraps: [len(.)] and the
    items a single pass over it produces. *)
Record iterable (A : Type) : Type := Iterable {
  it_len : Z;
  it_items : list A
}.
Arguments Iterable {A} it_len it_items.
Arguments it_len {A} i.
Arguments it_items {A} i.

Definition of_list {A : Type} (l : list A) : iterable A :=
  Iterable (len l) l.

(** *** CountingIterator *)

Module CountingIterator.
Section Counting.
Context {A : Type}.

(** [itr] is the generator [iter(self)]: the items of the wrapped
    iterable it has not produced yet. *)
Record t : Type := Make {
  iterable_ : iterable A;
  count : Z;
  itr : list A
}.

Definition __init__ (it : iterable A) : t :=
  Make it 0 (it_items it).

Definition __len__ (self : t) : Z := it_len (iterable_ self).

(** One step of the generator [__iter__]: [self.count += 1; yield x], or
    exhaustion. *)
Definition gen_next (self : t) : option A * t :=
  match itr self with
  | [] => (None, self)
  | x :: r => (Some x, Make (iterable_ self) (count self + 1) r)
  end.

Definition __next__ (self : t) : result A * t :=
  match gen_next self with
  | (Some x, self') => (Ok x, self')
  | (None, self') => (Raise StopIteration, self')
  end.

Definition has_next (self : t) : bool := count self <? __len__ self.

(** [next(itertools.islice(self.itr, n, n), None)]: the slice pulls [n]
    items from the generator, stops early if it is exhausted, and yields
    nothing. *)
Fixpoint consume (n : nat) (self : t) : t :=
  match n with
  | O => self
  | S n' =>
      match gen_next self with
      | (Some _, self') => consume n' self'
      | (None, self') => self'
      end
  end.

(** [islice] raises [ValueError] for a bound that is negative or above
    [sys.maxsize], before anything is pulled from the generator. *)
Definition skip (self : t) (num_to_skip : Z) : result unit * t :=
  if (num_to_skip <? 0) || (sys_maxsize <? num_to_skip)
  then (Raise ValueError, self)
  else (Ok tt, consume (Z.to_nat num_to_skip) self).

(** Any sequence of [__next__] and [skip] calls a client can make. *)
Inductive call : Type :=
| CallNext
| CallSkip (n : Z).

Definition do_call (self : t) (c : call) : t :=
  match c with
  | CallNext => snd (__next__ self)
  | CallSkip n => snd (skip self n)
  end.

Definition after_calls (it : iterable A) (cs : list call) : t :=
  fold_left do_call cs (__init__ it).

End Counting.
Arguments t A : clear implicits.
End CountingIterator.

(** *** ShardedIterator *)

Module ShardedIterator.
Section Sharded.
Context {A : Type}.

Record t : Type := Make {
  _sharded_len : Z;
  itr : list (option Z * option A);
  fill_value : A
}.

Definition __init__ (iterable : list A) (num_shards shard_id : Z)
           (fill_value : A) : result t :=
  if (shard_id <? 0) || (num_shards <=? shard_id) then Raise ValueError
  else
    let sharded_len := len iterable / num_shards in
    let sharded_len :=
      if 0 <? len iterable mod num_shards then sharded_len + 1
      else sharded_len in
    match islice iterable shard_id (len iterable) num_shards with
    | Raise e => Raise e
    | Ok sl =>
        Ok (Make sharded_len (zip_longest (range sharded_len) sl) fill_value)
    end.

Definition __len__ (self : t) : Z := _sharded_len self.

(** [next(self.itr)[1]] *)
Definition second (fill : A) (p : option Z * option A) : A :=
  match snd p with
  | Some x => x
  | None => fill
  end.

Definition __next__ (self : t) : result A * t :=
  match itr self with
  | [] => (Raise StopIteration, self)
  | p :: r =>
      (Ok (second (fill_value self) p),
       Make (_sharded_len self) r (fill_value self))
  end.

(** Everything a single pass ([for x in self]) produces. *)
Definition items (self : t) : list A :=
  map (second (fill_value self)) (itr self).
End Sharded.
Arguments t A : clear implicits.
End ShardedIterator.

(** [ceil(a / b)] on integers, for [b > 0] *)
Definition ceil_div (a b : Z) : Z := (a + b - 1) / b.

(** *** The object store

    The iterator [next_epoch_itr] returns is the very object the
    [EpochBatchIterator] keeps in [_cur_epoch_itr]: what the caller consumes
    from it is what [iterations_in_epoch] later reads.  Counting iterators
    therefore live in a store, and both parties hold a reference. *)
Definition loc : Type := nat.

Section Store.
Context {R : NumpyRandom} {A : Type}.

Definition alloc (c : CountingIterator.t A)
  : M (gmap loc (CountingIterator.t A)) loc :=
  fun w =>
    let l := fresh (dom (heap w)) in
    (Ok l, World (<[l := c]> (heap w)) (rng w)).

(** Call a method on the object a reference points to. *)
Definition on_obj {B : Type} (l : loc)
           (f : CountingIterator.t A -> result B * CountingIterator.t A)
  : M (gmap loc (CountingIterator.t A)) B :=
  fun w =>
    match heap w !! l with
    | None => (Raise Dangling, w)
    | Some c =>
        let (r, c') := f c in
        (r, World (<[l := c']> (heap w)) (rng w))
    end.

(** [next(itr)], [k] times, collecting the items. *)
Fixpoint next_n (k : nat) (l : loc)
  : M (gmap loc (CountingIterator.t A)) (list A) :=
  match k with
  | O => ret []
  | S k' =>
      bind (on_obj l CountingIterator.__next__) (fun x =>
      bind (next_n k' l) (fun xs => ret (x :: xs)))
  end.

Fixpoint rest_go (fuel : nat) (l : loc)
  : M (gmap loc (CountingIterator.t A)) (list A) :=
  match fuel with
  | O => ret []
  | S fuel' =>
      fun w =>
        match on_obj l CountingIterator.__next__ w with
        | (Ok x, w') => bind (rest_go fuel' l) (fun xs => ret (x :: xs)) w'
        | (Raise StopIteration, w') => (Ok [], w')
        | (Raise e, w') => (Raise e, w')
        end
  end.

(** [next(itr)] until [StopIteration]: one call more than the items left
    is always enough. *)
Definition rest (l : loc) : M (gmap loc (CountingIterator.t A)) (list A) :=
  fun w =>
    match heap w !! l with
    | None => (Raise Dangling, w)
    | Some c => rest_go (S (length (CountingIterator.itr c))) l w
    end.
End Store.

(** *** Checkpoint dictionaries *)

Inductive pyval : Type :=
| VInt (z : Z)
| VBool (b : bool).

(** [bool] is a subclass of [int]. *)
Definition as_int (v : pyval) : Z :=
  match v with
  | VInt z => z
  | VBool b => if b then 1 else 0
  end.

Definition truthy (v : pyval) : bool :=
  match v with
  | VInt z => negb (z =? 0)
  | VBool b => b
  end.

Definition k_epoch : string := "epoch"%string.
Definition k_iterations_in_epoch : string := "iterations_in_epoch"%string.
Definition k_shuffle : string := "shuffle"%string.

(** *** EpochBatchIterator *)

Module EpochBatchIterator.
Section Epoch.
Context {R : NumpyRandom} {sample payload : Type}.

Record t : Type := Make {
  dataset : Z -> sample;
  collate_fn : list sample -> payload;
  frozen_batches : list (list Z);
  seed : Z;
  num_shards : Z;
  shard_id : Z;
  epoch : Z;
  _cur_epoch_itr : option loc;
  _next_epoch_itr : option loc
}.

Abbreviation store := (gmap loc (CountingIterator.t payload)).

(** [torch.utils.data.DataLoader(dataset, collate_fn=.., batch_sampler=..)]
    with its default of no worker processes: its length is the sampler's,
    and a pass collates the samples of each batch the sampler produces,
    in order.  [dataset[i]] and [collate_fn] are functions of their
    arguments. *)
Definition DataLoader (dataset : Z -> sample)
           (collate_fn : list sample -> payload)
           (batch_sampler : ShardedIterator.t (list Z)) : iterable payload :=
  Iterable (ShardedIterator.__len__ batch_sampler)
           (map (fun b => collate_fn (map dataset b))
                (ShardedIterator.items batch_sampler)).

Definition __init__ (dataset : Z -> sample)
           (collate_fn : list sample -> payload)
           (batch_sampler : list (list Z)) (seed num_shards shard_id : Z) : t :=
  Make dataset collate_fn batch_sampler seed num_shards shard_id 0 None None.

Definition __len__ (self : t) : Z := len (frozen_batches self).

Definition set_epoch (e : Z) (self : t) : t :=
  Make (dataset self) (collate_fn self) (frozen_batches self) (seed self)
       (num_shards self) (shard_id self) e
       (_cur_epoch_itr self) (_next_epoch_itr self).

Definition set_cur (c : option loc) (self : t) : t :=
  Make (dataset self) (collate_fn self) (frozen_batches self) (seed self)
       (num_shards self) (shard_id self) (epoch self)
       c (_next_epoch_itr self).

Definition set_next (n : option loc) (self : t) : t :=
  Make (dataset self) (collate_fn self) (frozen_batches self) (seed self)
       (num_shards self) (shard_id self) (epoch self)
       (_cur_epoch_itr self) n.

(** The batch order of an epoch. *)
Definition epoch_batches (self : t) (epoch : Z) (shuffle : bool)
  : M store (list (list Z)) :=
  if shuffle
  then numpy_seed (Some (seed self + epoch))
                  (np_random_shuffle (frozen_batches self))
  else ret (frozen_batches self).

Definition _get_iterator_for_epoch (self : t) (epoch : Z) (shuffle : bool)
  : M store loc :=
  bind (epoch_batches self epoch shuffle) (fun batches =>
  match ShardedIterator.__init__ batches (num_shards self) (shard_id self) []
  with
  | Raise e => raise e
  | Ok sampler =>
      alloc (CountingIterator.__init__
               (DataLoader (dataset self) (collate_fn self) sampler))
  end).

(** The methods that assign to fields of [self] return the updated
    object next to the result, so that an exception keeps the assignments
    made before it. *)
Definition next_epoch_itr (self : t) (shuffle : bool) (w : world store)
  : result loc * t * world store :=
  match _next_epoch_itr self with
  | Some it =>
      let self := set_cur (Some it) self in
      let self := set_next None self in
      (Ok it, self, w)
  | None =>
      let self := set_epoch (epoch self + 1) self in
      match _get_iterator_for_epoch self (epoch self) shuffle w with
      | (Ok it, w') => (Ok it, set_cur (Some it) self, w')
      | (Raise e, w') => (Raise e, self, w')
      end
  end.

Definition end_of_epoch (self : t) : M store bool :=
  match _cur_epoch_itr self with
  | None => raise AttributeError
  | Some l => on_obj l (fun c => (Ok (negb (CountingIterator.has_next c)), c))
  end.

Definition count_of (l : loc) : M store Z :=
  on_obj l (fun c => (Ok (CountingIterator.count c), c)).

Definition iterations_in_epoch (self : t) : M store Z :=
  match _cur_epoch_itr self with
  | Some l => count_of l
  | None =>
      match _next_epoch_itr self with
      | Some l => count_of l
      | None => ret 0
      end
  end.

Definition state_dict (self : t) : M store (gmap string pyval) :=
  bind (iterations_in_epoch self) (fun n =>
  ret (<[k_epoch := VInt (epoch self)]>
       (<[k_iterations_in_epoch := VInt n]> ∅))).

Definition load_state_dict (self : t) (state_dict : gmap string pyval)
           (w : world store) : result unit * t * world store :=
  match state_dict !! k_epoch with
  | None => (Raise KeyError, self, w)
  | Some e =>
      let self := set_epoch (as_int e) self in
      let itr_pos :=
        as_int (default (VInt 0) (state_dict !! k_iterations_in_epoch)) in
      if 0 <? itr_pos then
        let shuffle := truthy (default (VBool true) (state_dict !! k_shuffle)) in
        match _get_iterator_for_epoch self (epoch self) shuffle w with
        | (Raise e, w') => (Raise e, self, w')
        | (Ok itr, w') =>
            match on_obj itr (fun c => (Ok (CountingIterator.__len__ c), c)) w'
            with
            | (Raise e, w'') => (Raise e, self, w'')
            | (Ok n, w'') =>
                if itr_pos <? n then
                  match on_obj itr (fun c => CountingIterator.skip c itr_pos) w''
                  with
                  | (Raise e, w3) => (Raise e, self, w3)
                  | (Ok _, w3) => (Ok tt, set_next (Some itr) self, w3)
                  end
                else (Ok tt, self, w'')
            end
        end
      else (Ok tt, self, w)
  end.

(** *** What an epoch derives, as functions of the arguments

    The order of the batches and the iterable the counting iterator
    wraps, written without the world; the properties below show that
    [_get_iterator_for_epoch] computes exactly these. *)
Definition epoch_order (self : t) (epoch : Z) (shuffle : bool)
  : result (list (list Z)) :=
  if shuffle then
    if seed_ok (seed self + epoch)
    then Ok (fst (shuffle_with (seed_state (seed self + epoch))
                               (frozen_batches self)))
    else Raise ValueError
  else Ok (frozen_batches self).

Definition epoch_iterable (self : t) (epoch : Z) (shuffle : bool)
  : result (iterable payload) :=
  match epoch_order self epoch shuffle with
  | Raise e => Raise e
  | Ok batches =>
      match ShardedIterator.__init__ batches (num_shards self)
                                     (shard_id self) []
      with
      | Raise e => Raise e
      | Ok sampler => Ok (DataLoader (dataset self) (collate_fn self) sampler)
      end
  end.

(** *** Client programs *)

(** Begin the next epoch and read it to its end. *)
Definition uninterrupted_run (self : t) (shuffle : bool) (w : world store)
  : result (list payload) :=
  match next_epoch_itr self shuffle w with
  | (Raise e, _, _) => Raise e
  | (Ok itr, _, w1) => fst (rest itr w1)
  end.

(** Begin the next epoch, read [k] batches and take the checkpoint; then,
    in a new process [w_new], build the iterator again from the same
    constructor arguments, load the checkpoint, begin the next epoch and
    read it to its end. *)
Definition resumed_run (self : t) (shuffle : bool) (k : nat) (w : world store)
           (w_new : world store) (shuffle_new : bool)
  : result (list payload) :=
  match next_epoch_itr self shuffle w with
  | (Raise e, _, _) => Raise e
  | (Ok itr, self1, w1) =>
      match next_n k itr w1 with
      | (Raise e, _) => Raise e
      | (Ok _, w2) =>
          match state_dict self1 w2 with
          | (Raise e, _) => Raise e
          | (Ok sd, _) =>
              let again :=
                __init__ (dataset self) (collate_fn self)
                         (frozen_batches self) (seed self)
                         (num_shards self) (shard_id self) in
              match load_state_dict again sd w_new with
              | (Raise e, _, _) => Raise e
              | (Ok _, again1, w3) =>
                  match next_epoch_itr again1 shuffle_new w3 with
                  | (Raise e, _, _) => Raise e
                  | (Ok itr2, _, w4) => fst (rest itr2 w4)
                  end
              end
          end
      end
  end.
End Epoch.
Arguments t sample payload : clear implicits.
End EpochBatchIterator.

(** *** A small generator for the worked examples

    The state is a counter; seeding sets it to the seed, and a shuffle
    rotates the list left by the counter (modulo the length) and adds one to
    the counter.  It stands for NumPy's generator in the examples only; the
    general properties hold for every generator. *)
Definition rotate_shuffle (g : Z) (l : list (list Z)) : list (list Z) * Z :=
  let n := Z.to_nat (g mod len l) in
  (skipn n l ++ firstn n l, g + 1).

Definition rotating_random : NumpyRandom :=
  {| rng_state := Z; seed_state := fun s => s; shuffle_with := rotate_shuffle |}.

(** Three batches of one example each; samples and collated batches are the
    indices themselves. *)
Definition three_batches : list (list Z) := [[0]; [1]; [2]].

Definition example_iterator : EpochBatchIterator.t Z (list Z) :=
  EpochBatchIterator.__init__ (fun i => i) (fun b => b) three_batches 1 1 0.

Definition empty_world : world (R := rotating_random)
                               (gmap loc (CountingIterator.t (list Z))) :=
  World ∅ (0 : @rng_state rotating_random).

Definition checkpoint (epoch iterations : Z) : gmap string pyval :=
  <[k_epoch := VInt epoch]> (<[k_iterations_in_epoch := VInt iterations]> ∅).

End Iterators.

(** ** Client programs over an EpochBatchIterator *)

Module Clients.
Import DataUtils.
Import Iterators.
Import EpochBatchIterator.

Section Programs.
Context {R : NumpyRandom} {sample payload : Type}.

(** Begin the next epoch, read [k] batches from the iterator returned, then
    ask the [EpochBatchIterator] for [iterations_in_epoch] and
    [end_of_epoch()]. *)
Definition progress_after (self : EpochBatchIterator.t sample payload)
           (shuffle : bool) (k : nat)
           (w : world (gmap loc (CountingIterator.t payload)))
  : result (Z * bool) :=
  match next_epoch_itr self shuffle w with
  | (Raise e, _, _) => Raise e
  | (Ok itr, self1, w1) =>
      match next_n k itr w1 with
      | (Raise e, _) => Raise e
      | (Ok _, w2) =>
          match iterations_in_epoch self1 w2 with
          | (Raise e, _) => Raise e
          | (Ok n, w3) =>
              match end_of_epoch self1 w3 with
              | (Raise e, _) => Raise e
              | (Ok b, _) => Ok (n, b)
              end
          end
      end
  end.

(** [load_state_dict(sd)] followed at once by [state_dict()]. *)
Definition reload_state (self : EpochBatchIterator.t sample payload)
           (sd : gmap string pyval)
           (w : world (gmap loc (CountingIterator.t payload)))
  : result (gmap string pyval) :=
  match load_state_dict self sd w with
  | (Raise e, _, _) => Raise e
  | (Ok _, self1, w1) => fst (state_dict self1 w1)
  end.
End Programs.

End Clients.

(** ** data_utils.py: collect_filtered and filter_by_size *)

Module Filtering.

(** What [size_fn] returns and what [max_positions] holds: an integer, or a
    tuple whose components may be [None].  (A [float] limit is not
    modelled.) *)
Inductive size_value : Type :=
| SizeInt (n : Z)
| SizeTuple (l : list (option Z)).

(** What the two generators do, in the order they do it:
    [filtered.append(el)], [yield el], or a [TypeError] from the
    comparison. *)
Inductive event : Type :=
| Append (el : Z)
| Emit (el : Z)
| Crash.

(** [function] answers [None] when its call raises. *)
Fixpoint collect_filtered (function : Z -> option bool) (iterable : list Z)
  : list event :=
  match iterable with
  | [] => []
  | el :: rest =>
      match function el with
      | None => [Crash]
      | Some true => Emit el :: collect_filtered function rest
      | Some false => Append el :: collect_filtered function rest
      end
  end.

Inductive failure : Type :=
| TypeError
| SizeException (idx : Z).

(** A run of [filter_by_size]: the indices yielded, ending normally (with
    the list [ignored] and whether the warning was printed) or with an
    exception. *)
Inductive run : Type :=
| Done (ignored : list Z) (warned : bool)
| Yield (idx : Z) (k : run)
| Fail (e : failure) (ignored : list Z).

Fixpoint kept (r : run) : list Z :=
  match r with
  | Yield idx k => idx :: kept k
  | _ => []
  end.

Fixpoint ignored_of (r : run) : list Z :=
  match r with
  | Done ignored _ => ignored
  | Yield _ k => ignored_of k
  | Fail _ ignored => ignored
  end.

Fixpoint failure_of (r : run) : option failure :=
  match r with
  | Done _ _ => None
  | Yield _ k => failure_of k
  | Fail e _ => Some e
  end.

Fixpoint warned_of (r : run) : bool :=
  match r with
  | Done _ warned => warned
  | Yield _ k => warned_of k
  | Fail _ _ => false
  end.

Section FilterBySize.
Variable size_fn : Z -> size_value.
Variable max_positions : size_value.
Variable raise_exception : bool.

(** [a is None or b is None or a <= b] *)
Definition component_ok (ab : option Z * option Z) : bool :=
  match ab with
  | (Some a, Some b) => a <=? b
  | _ => true
  end.

(** Comparing a tuple with an integer, and zipping an integer, raise
    [TypeError]. *)
Definition check_size (idx : Z) : option bool :=
  match max_positions with
  | SizeInt m =>
      match size_fn idx with
      | SizeInt s => Some (s <=? m)
      | SizeTuple _ => None
      end
  | SizeTuple ms =>
      match size_fn idx with
      | SizeInt _ => None
      | SizeTuple ss => Some (forallb component_ok (combine ss ms))
      end
  end.

(** The loop [for idx in itr] over the events of [collect_filtered], with
    the list [ignored] the two generators share, and the warning at the
    end. *)
Fixpoint filter_events (events : list event) (ignored : list Z) : run :=
  match events with
  | [] => Done ignored (0 <? len ignored)
  | Append el :: rest => filter_events rest (ignored ++ [el])
  | Emit idx :: rest =>
      if (0 <? len ignored) && raise_exception
      then Fail (SizeException idx) ignored
      else Yield idx (filter_events rest ignored)
  | Crash :: _ => Fail TypeError ignored
  end.

Definition filter_by_size (indices : list Z) : run :=
  filter_events (collect_filtered check_size indices) [].

(** The index passes the size check. *)
Definition passes (idx : Z) : bool :=
  match check_size idx with
  | Some true => true
  | _ => false
  end.

(** The size check of the index raises nothing. *)
Definition well_typed (idx : Z) : Prop := check_size idx <> None.
End FilterBySize.

(** The longest prefix whose elements satisfy [p], and what follows it. *)
Fixpoint take_while {A : Type} (p : A -> bool) (l : list A) : list A :=
  match l with
  | [] => []
  | x :: r => if p x then x :: take_while p r else []
  end.

Fixpoint drop_while {A : Type} (p : A -> bool) (l : list A) : list A :=
  match l with
  | [] => []
  | x :: r => if p x then drop_while p r else l
  end.

(** Sizes of the worked example: index 2 is too long. *)
Definition size_two_long (i : Z) : size_value :=
  SizeInt (if i =? 2 then 9 else 3).

End Filtering.

(** ** data_utils.py: collate_tokens

    A 1-d tensor is the list of its entries, a 2-d tensor the list of its
    rows.  The tensors are [LongTensor]s, as the encoded sentences of a
    dictionary are: a Python integer that is written into one, or compared
    with one, must fit 64 bits, and the operation raises [RuntimeError]
    when it does not. *)

Module Collate.

Inductive failure : Type :=
| EmptySequence    (* [max()] of no values: a [ValueError] *)
| AssertionError
| IndexError
| RuntimeError.

Inductive outcome (A : Type) : Type :=
| Returns (a : A)
| Fails (e : failure).
Arguments Returns {A} a.
Arguments Fails {A} e.

(** The integers an [int64] entry can hold. *)
Definition fits_int64 (z : Z) : bool := (- 2 ^ 63 <=? z) && (z <? 2 ^ 63).

Section CollateTokens.
Variables pad_idx eos_idx : Z.
Variables left_pad move_eos_to_beginning : bool.

(** [copy_tensor(src, dst)] writes into the view [dst]; the result is what
    [dst] holds afterwards.  [src[-1]] of an empty tensor is an
    [IndexError]; the comparison [src[-1] == eos_idx] raises when [eos_idx]
    does not fit the entries. *)
Definition copy_tensor (src dst : list Z) : outcome (list Z) :=
  if negb (len dst =? len src) then Fails AssertionError
  else if move_eos_to_beginning then
    match last src with
    | None => Fails IndexError
    | Some x =>
        if negb (fits_int64 eos_idx) then Fails RuntimeError
        else if negb (x =? eos_idx) then Fails AssertionError
        else Returns (eos_idx :: slice_to src (-1))
    end
  else Returns src.

(** The loop [for i, v in enumerate(values)], from row [i] on. *)
Fixpoint copy_rows (size : Z) (i : nat) (values : list (list Z))
         (res : list (list Z)) : outcome (list (list Z)) :=
  match values with
  | [] => Returns res
  | v :: rest =>
      match res !! i with
      | None => Fails IndexError
      | Some row =>
          let written :=
            if left_pad then
              match copy_tensor v (slice_from row (size - len v)) with
              | Fails e => Fails e
              | Returns dst => Returns (slice_to row (size - len v) ++ dst)
              end
            else
              match copy_tensor v (slice_to row (len v)) with
              | Fails e => Fails e
              | Returns dst => Returns (dst ++ slice_from row (len v))
              end in
          match written with
          | Fails e => Fails e
          | Returns row' => copy_rows size (S i) rest (<[i := row']> res)
          end
      end
  end.

Definition collate_tokens (values : list (list Z))
  : outcome (list (list Z)) :=
  match values with
  | [] => Fails EmptySequence
  | _ :: _ =>
      let size := py_max (map len values) in
      (* [values[0].new(len(values), size).fill_(pad_idx)] *)
      if negb (fits_int64 pad_idx) then Fails RuntimeError
      else
        let res := repeat (repeat pad_idx (Z.to_nat size)) (length values) in
        copy_rows size 0 values res
  end.

(** What is copied for each value, or the first failure. *)
Fixpoint all_contents (values : list (list Z)) : outcome (list (list Z)) :=
  match values with
  | [] => Returns []
  | v :: rest =>
      match copy_tensor v v with
      | Fails e => Fails e
      | Returns c =>
          match all_contents rest with
          | Fails e => Fails e
          | Returns cs => Returns (c :: cs)
          end
      end
  end.

(** A row of width [size] holding [v], padded on the chosen side. *)
Definition pad_row (size : Z) (v : list Z) : list Z :=
  let padding := repeat pad_idx (Z.to_nat (size - len v)) in
  if left_pad then padding ++ v else v ++ padding.
End CollateTokens.

(** The value ends with [eos_idx]. *)
Definition ends_with (eos_idx : Z) (v : list Z) : Prop :=
  exists body, v = body ++ [eos_idx].

End Collate.

(** ** data_utils.py: _trunc_sent, truncate_single, truncate_pair

    A sentence is the list of its tokens.  [np.random.binomial(n, 0.5)]
    draws from the global generator; the value drawn for [n >= 0] and the
    generator afterwards are given by [draw], and a negative [n] raises
    [ValueError]. *)

Module Truncate.

(** [l[a:b]] *)
Definition slice_between {A : Type} (l : list A) (a b : Z) : list A :=
  let s := slice_bound (len l) a in
  let e := slice_bound (len l) b in
  firstn (e - s) (skipn s l).

Section Truncate.
Context {G : Type}.
Variable draw : Z -> G -> Z * G.

Definition np_random_binomial (n : Z) (g : G) : result Z * G :=
  if n <? 0 then (Raise ValueError, g)
  else let (k, g') := draw n g in (Ok k, g').

Definition _trunc_sent (sent : list Z) (cnt : Z) (g : G)
  : result (list Z) * G :=
  match np_random_binomial cnt g with
  | (Raise e, g') => (Raise e, g')
  | (Ok trunc_head, g') =>
      let trunc_tail := cnt - trunc_head in
      (Ok (slice_between sent trunc_head (- trunc_tail)), g')
  end.

Definition truncate_single (sent : list Z) (max_positions : Z) (g : G)
  : result (list Z) * G :=
  let diff := len sent + 1 - max_positions in
  if diff <=? 0 then (Ok sent, g)
  else _trunc_sent sent diff g.

Definition truncate_pair (sent1 sent2 : list Z) (max_positions : Z) (g : G)
  : result (list Z * list Z) * G :=
  let diff := len sent1 + len sent2 + 1 - max_positions in
  if diff <=? 0 then (Ok (sent1, sent2), g)
  else
    (* the [if]/[elif] that evens out the two lengths *)
    let evened : result (list Z * list Z * Z) * G :=
      if len sent2 <? len sent1 then
        let to_trunc := Z.min (len sent1 - len sent2) diff in
        match _trunc_sent sent1 to_trunc g with
        | (Raise e, g') => (Raise e, g')
        | (Ok s1, g') => (Ok (s1, sent2, diff - to_trunc), g')
        end
      else if len sent1 <? len sent2 then
        let to_trunc := Z.min (len sent2 - len sent1) diff in
        match _trunc_sent sent2 to_trunc g with
        | (Raise e, g') => (Raise e, g')
        | (Ok s2, g') => (Ok (sent1, s2, diff - to_trunc), g')
        end
      else (Ok (sent1, sent2, diff), g) in
    match evened with
    | (Raise e, g1) => (Raise e, g1)
    | (Ok (s1, s2, diff), g1) =>
        if diff <=? 0 then (Ok (s1, s2), g1)
        else
          match np_random_binomial diff g1 with
          | (Raise e, g2) => (Raise e, g2)
          | (Ok trunc1, g2) =>
              let trunc2 := diff - trunc1 in
              match _trunc_sent s1 trunc1 g2 with
              | (Raise e, g3) => (Raise e, g3)
              | (Ok r1, g3) =>
                  match _trunc_sent s2 trunc2 g3 with
                  | (Raise e, g4) => (Raise e, g4)
                  | (Ok r2, g4) => (Ok (r1, r2), g4)
                  end
              end
          end
    end.

(** The binomial draw of [n] trials lies between 0 and [n]. *)
Definition draws_in_range : Prop :=
  forall n g, 0 <= n -> 0 <= fst (draw n g) <= n.
End Truncate.

(** [r] is a run of consecutive tokens of [sent]. *)
Definition segment_of {A : Type} (r sent : list A) : Prop :=
  exists before after, sent = before ++ r ++ after.

(** A draw for the worked examples: half of the trials, generator state
    counting the draws. *)
Definition half_draw (n : Z) (g : nat) : Z * nat := (n / 2, S g).

End Truncate.

(** ** iterators.py: GroupedIterator

    [itr] is the iterator over the wrapped iterable: the items it has yet
    to produce.  [__init__] computes [self._len] with floating-point
    arithmetic, [int(math.ceil(len(iterable) / float(chunk_size)))]; that
    number is not modelled, only that [float(chunk_size)] raises
    [OverflowError] for an integer beyond the range of a double, and that
    the division then raises [ZeroDivisionError] for a chunk size of
    zero. *)

Module GroupedIterator.

(** The least magnitude [float(n)] refuses: an integer is rounded to the
    nearest double, and from [2 ** 1024 - 2 ** 970] on that would be
    [2 ** 1024], which is no double. *)
Definition float_limit : Z := 2 ^ 1024 - 2 ^ 970.

Definition float_overflows (n : Z) : bool := float_limit <=? Z.abs n.

Section Grouped.
Context {A : Type}.

Record t : Type := Make {
  itr : list A;
  chunk_size : Z
}.

Definition __init__ (iterable : list A) (chunk_size : Z) : result t :=
  if float_overflows chunk_size then Raise OverflowError
  else if chunk_size =? 0 then Raise ZeroDivisionError
  else Ok (Make iterable chunk_size).

(** The loop [for _ in range(self.chunk_size): chunk.append(next(self.itr))];
    the flag tells whether [next] raised [StopIteration]. *)
Fixpoint take_chunk (n : nat) (itr chunk : list A) : list A * list A * bool :=
  match n with
  | O => (chunk, itr, false)
  | S n' =>
      match itr with
      | [] => (chunk, [], true)
      | x :: r => take_chunk n' r (chunk ++ [x])
      end
  end.

Definition __next__ (self : t) : result (list A) * t :=
  let '(chunk, itr', stopped) :=
    take_chunk (Z.to_nat (chunk_size self)) (itr self) [] in
  let self' := Make itr' (chunk_size self) in
  if stopped && (len chunk =? 0) then (Raise StopIteration, self')
  else (Ok chunk, self').

(** [list(self)]: [__next__] until it raises, for at most [fuel] calls;
    [None] when the calls run out first. *)
Fixpoint groups_go (fuel : nat) (self : t) : option (list (list A)) :=
  match fuel with
  | O => None
  | S fuel' =>
      match __next__ self with
      | (Raise _, _) => Some []
      | (Ok chunk, self') =>
          match groups_go fuel' self' with
          | None => None
          | Some gs => Some (chunk :: gs)
          end
      end
  end.

Definition groups (self : t) : option (list (list A)) :=
  groups_go (S (length (itr self))) self.
End Grouped.
Arguments t A : clear implicits.
End GroupedIterator.

(** ** data_utils.py: infer_language_pair, and its caller in
    tasks/translation.py *)

Module LanguagePair.

(** [s.split(sep)] for a separator of one character *)
Fixpoint split_on (sep : Ascii.ascii) (s : string) : list string :=
  match s with
  | EmptyString => [EmptyString]
  | String c s' =>
      if Ascii.eqb c sep then EmptyString :: split_on sep s'
      else
        match split_on sep s' with
        | [] => [String c EmptyString]
        | p :: ps => String c p :: ps
        end
  end.

(** The characters [.] and [-], by their codes. *)
Definition dot : Ascii.ascii := Ascii.ascii_of_nat 46.
Definition dash : Ascii.ascii := Ascii.ascii_of_nat 45.

(** The body of the loop for one file name: the pair it names, if any. *)
Definition pair_of (filename : string) : option (string * string) :=
  let parts := split_on dot filename in
  if 3 <=? len parts then
    match split_on dash (nth 1 parts EmptyString) with
    | [a; b] => Some (a, b)
    | _ => None
    end
  else None.

(** [listdir] is what [os.listdir(path)] returns. *)
Fixpoint infer_language_pair (listdir : list string)
  : option string * option string :=
  match listdir with
  | [] => (None, None)
  | filename :: rest =>
      match pair_of filename with
      | Some (a, b) => (Some a, Some b)
      | None => infer_language_pair rest
      end
  end.

(** The language part of [TranslationTask.setup_task]; [None] stands for
    the exception 'Could not infer language pair'. *)
Definition setup_languages (source_lang target_lang : option string)
           (listdir : list string) : option (string * string) :=
  let (source_lang, target_lang) :=
    match source_lang, target_lang with
    | Some _, Some _ => (source_lang, target_lang)
    | _, _ => infer_language_pair listdir
    end in
  match source_lang, target_lang with
  | Some s, Some t => Some (s, t)
  | _, _ => None
  end.

(** The character occurs in the string. *)
Fixpoint contains (c : Ascii.ascii) (s : string) : bool :=
  match s with
  | EmptyString => false
  | String c' s' => Ascii.eqb c' c || contains c s'
  end.

(** A name without dot or dash. *)
Definition plain (s : string) : Prop :=
  contains dot s = false /\ contains dash s = false.

(** [first.src-tgt.rest] *)
Definition pair_name (first src tgt rest : string) : string :=
  String.append first
    (String dot (String.append src
       (String dash (String.append tgt (String dot rest))))).

End LanguagePair.

(** * Properties *)

(** ** batch_by_size *)

Module BatchFacts.
Import DataUtils.

Lemma len_nonneg {A : Type} (l : list A) : 0 <= len l.
Proof. unfold len. lia. Qed.

Lemma len_app {A : Type} (l1 l2 : list A) : len (l1 ++ l2) = len l1 + len l2.
Proof. unfold len. rewrite length_app. lia. Qed.

Lemma len_zero_nil {A : Type} (l : list A) : len l = 0 -> l = [].
Proof. destruct l; [reflexivity | unfold len; simpl; lia]. Qed.

Lemma slice_to_from {A : Type} (l : list A) (i : Z) :
  slice_to l i ++ slice_from l i = l.
Proof. unfold slice_to, slice_from. apply firstn_skipn. Qed.

Lemma len_slice_to {A : Type} (l : list A) (i : Z) :
  0 <= i <= len l -> len (slice_to l i) = i.
Proof.
  intros Hi. unfold slice_to, slice_bound, len in *.
  rewrite length_firstn.
  destruct (i <? 0) eqn:E; [apply Z.ltb_lt in E; lia |].
  lia.
Qed.

Section Loop.
Variable num_tokens_fn : Z -> Z.
Variables max_tokens max_sentences : option Z.
Variable bsz_mult : Z.

Local Abbreviation loop :=
  (batch_loop num_tokens_fn max_tokens max_sentences bsz_mult).
Local Abbreviation full := (is_batch_full max_tokens max_sentences).

Lemma full_nonempty batch n : full batch n = true -> 0 < len batch.
Proof.
  unfold is_batch_full. destruct (len batch =? 0) eqn:E; [discriminate |].
  intros _. apply Z.eqb_neq in E. pose proof (len_nonneg batch). lia.
Qed.

(** The batches come out in the input order: glued together they are the
    pending candidate followed by the indices still to read. *)
Lemma batch_loop_concat indices :
  bsz_mult <> 0 ->
  forall batch sample_len sample_lens,
    raised (loop indices batch sample_len sample_lens) = None /\
    concat (yielded (loop indices batch sample_len sample_lens))
    = batch ++ indices.
Proof.
  intros Hm. induction indices as [| idx rest IH]; intros batch sl sls.
  - simpl. destruct (0 <? len batch) eqn:E; simpl.
    + split; [reflexivity |]. now rewrite !app_nil_r.
    + apply Z.ltb_ge in E. pose proof (len_nonneg batch).
      rewrite (len_zero_nil batch) by lia. now split.
  - cbn [batch_loop]. cbv zeta.
    destruct (is_batch_full _ _ batch _).
    + destruct (bsz_mult =? 0) eqn:E; [apply Z.eqb_eq in E; contradiction |].
      cbn [raised yielded concat].
      match goal with
      | |- context [batch_loop _ _ _ _ rest ?b ?s ?ss] =>
          destruct (IH b s ss) as [IH1 IH2]
      end.
      split; [exact IH1 |]. rewrite IH2.
      rewrite app_assoc, app_assoc, slice_to_from, <- app_assoc. reflexivity.
    + destruct (IH (batch ++ [idx])
                   (Z.max sl (List.last (sls ++ [num_tokens_fn idx]) 0))
                   (sls ++ [num_tokens_fn idx])) as [IH1 IH2].
      split; [exact IH1 |]. rewrite IH2, <- app_assoc. reflexivity.
Qed.

Lemma batch_loop_yields indices batch sample_len sample_lens :
  bsz_mult <> 0 -> 0 < len batch ->
  yielded (loop indices batch sample_len sample_lens) <> [].
Proof.
  intros Hm Hb Hnil.
  destruct (batch_loop_concat indices Hm batch sample_len sample_lens) as [_ Hc].
  rewrite Hnil in Hc. simpl in Hc.
  destruct batch; [unfold len in Hb; simpl in Hb; lia | discriminate].
Qed.

(** How many indices a closed candidate gives up. *)
Lemma mod_len_of_spec batch :
  1 <= bsz_mult -> 0 < len batch ->
  0 < mod_len_of bsz_mult batch <= len batch /\
  (mod_len_of bsz_mult batch mod bsz_mult = 0 \/
   mod_len_of bsz_mult batch < bsz_mult).
Proof.
  intros Hm Hb. unfold mod_len_of.
  pose proof (Z.mod_pos_bound (len batch) bsz_mult ltac:(lia)) as Hmod.
  pose proof (Z.div_mod (len batch) bsz_mult ltac:(lia)) as Hdm.
  destruct (Z_lt_ge_dec (len batch) bsz_mult) as [Hlt | Hge].
  - rewrite (Z.div_small (len batch) bsz_mult) in * by lia.
    rewrite (Z.mod_small (len batch) bsz_mult) in * by lia.
    rewrite Z.mul_0_r. rewrite Z.max_r by lia. lia.
  - assert (1 <= len batch / bsz_mult)
      by (apply Z.div_le_lower_bound; lia).
    rewrite Z.max_l by nia.
    split; [nia |]. left. rewrite Z.mul_comm. apply Z_mod_mult.
Qed.

Lemma batch_loop_multiple indices :
  1 <= bsz_mult ->
  forall batch sample_len sample_lens,
    Forall (fun b => multiple_of bsz_mult b \/ len b < bsz_mult)
           (non_final (yielded (loop indices batch sample_len sample_lens))).
Proof.
  intros Hm. unfold non_final, multiple_of.
  induction indices as [| idx rest IH]; intros batch sl sls.
  - simpl. destruct (0 <? len batch); simpl; constructor.
  - cbn [batch_loop]. cbv zeta.
    destruct (is_batch_full _ _ batch _) eqn:Hfull.
    + apply full_nonempty in Hfull.
      destruct (bsz_mult =? 0) eqn:E; [apply Z.eqb_eq in E; lia |].
      cbn [yielded].
      match goal with
      | |- context [batch_loop _ _ _ _ rest ?b ?s ?ss] =>
          pose proof (IH b s ss) as IH';
          pose proof (batch_loop_yields rest b s ss ltac:(lia)) as Hne
      end.
      destruct (mod_len_of_spec batch Hm Hfull) as [Hrange Hshape].
      match type of Hne with
      | _ -> ?y <> [] => destruct y as [| y0 ys] eqn:Ey
      end.
      { exfalso. apply Hne; [| reflexivity]. rewrite len_app.
        pose proof (len_nonneg (slice_from batch (mod_len_of bsz_mult batch))).
        unfold len at 2. simpl. lia. }
      cbn [removelast]. constructor; [| exact IH'].
      rewrite len_slice_to by lia. exact Hshape.
    + apply IH.
Qed.
End Loop.

(** Order is kept as well: the batches, glued together, are the input. *)
Lemma batch_by_size_concat f mt ms m indices :
  m <> 0 -> concat (yielded (batch_by_size f mt ms m indices)) = indices.
Proof.
  intros Hm. unfold batch_by_size.
  destruct (batch_loop_concat f mt ms m indices Hm [] 0 []) as [_ Hc].
  exact Hc.
Qed.

(** *** With a multiple of 1 the budget holds *)

Lemma py_max_le (l : list Z) (s : Z) :
  l <> [] -> (forall x, In x l -> x <= s) -> py_max l <= s.
Proof.
  destruct l as [| x r]; [congruence |]. intros _ H. simpl.
  assert (Hx : x <= s) by (apply H; now left).
  assert (Hr : forall y, In y r -> y <= s) by (intros y Hy; apply H; now right).
  clear H. revert x Hx. induction r as [| y r IH]; intros x Hx; simpl; [exact Hx |].
  apply IH.
  - intros z Hz. apply Hr. now right.
  - apply Z.max_lub; [exact Hx | apply Hr; now left].
Qed.

Section Budget.
Variable num_tokens_fn : Z -> Z.
Variables max_tokens max_sentences : Z.
Hypothesis Hsent : 1 <= max_sentences.

Local Abbreviation loop1 :=
  (batch_loop num_tokens_fn (Some max_tokens) (Some max_sentences) 1).

Local Abbreviation candidate_ok :=
  (DataUtils.candidate_ok num_tokens_fn max_tokens max_sentences).

Lemma candidate_ok_budget batch sample_len sample_lens :
  candidate_ok batch sample_len sample_lens -> 0 < len batch ->
  respects_budget num_tokens_fn max_tokens max_sentences batch \/
  singleton_overflow num_tokens_fn max_tokens batch.
Proof.
  intros (Hal & Hms & Hle & Htok) Hpos.
  destruct batch as [| i [| j r]].
  - unfold len in Hpos. simpl in Hpos. lia.
  - destruct (Z_le_gt_dec (num_tokens_fn i) max_tokens) as [Hfit | Hbig].
    + left. split; [exact Hms |]. unfold len. simpl. lia.
    + right. exists i. split; [reflexivity | lia].
  - left. split; [exact Hms |].
    destruct Htok as [Hone | Htok]; [unfold len in Hone; simpl in Hone; lia |].
    assert (py_max (map num_tokens_fn (i :: j :: r)) <= sample_len).
    { apply py_max_le; [discriminate |].
      intros x Hx. apply in_map_iff in Hx as (y & <- & Hy). now apply Hle. }
    pose proof (len_nonneg (i :: j :: r)). nia.
Qed.

Lemma mod_len_of_one (batch : list Z) : mod_len_of 1 batch = len batch.
Proof.
  unfold mod_len_of. rewrite Z.div_1_r, Z.mod_1_r, Z.mul_1_l.
  pose proof (len_nonneg batch). lia.
Qed.

Lemma slice_to_all {A : Type} (l : list A) : slice_to l (len l) = l.
Proof.
  unfold slice_to, slice_bound. pose proof (len_nonneg l).
  destruct (len l <? 0) eqn:E; [apply Z.ltb_lt in E; lia |].
  rewrite Z.min_id. unfold len. rewrite Nat2Z.id. apply firstn_all.
Qed.

Lemma slice_from_app_len {A : Type} (l r : list A) :
  slice_from (l ++ r) (len l) = r.
Proof.
  unfold slice_from, slice_bound. pose proof (len_nonneg l).
  destruct (len l <? 0) eqn:E; [apply Z.ltb_lt in E; lia |].
  rewrite len_app. pose proof (len_nonneg r).
  rewrite Z.min_l by lia. unfold len. rewrite Nat2Z.id.
  rewrite skipn_app, skipn_all, Nat.sub_diag. reflexivity.
Qed.

Lemma batch_loop_budget indices :
  forall batch sample_len sample_lens,
    candidate_ok batch sample_len sample_lens ->
    Forall (fun b =>
              respects_budget num_tokens_fn max_tokens max_sentences b \/
              singleton_overflow num_tokens_fn max_tokens b)
           (yielded (loop1 indices batch sample_len sample_lens)).
Proof.
  induction indices as [| idx rest IH]; intros batch sl sls Hok.
  - simpl. destruct (0 <? len batch) eqn:E; simpl; [| constructor].
    apply Z.ltb_lt in E. constructor; [| constructor].
    eapply candidate_ok_budget; eauto.
  - cbn [batch_loop]. cbv zeta. rewrite last_last.
    destruct (is_batch_full _ _ batch _) eqn:Hfull.
    + apply full_nonempty in Hfull. cbn [Z.eqb yielded].
      rewrite mod_len_of_one, slice_to_all.
      constructor; [eapply candidate_ok_budget; eauto |].
      destruct Hok as (Hal & _).
      rewrite <- (app_nil_r batch) at 1. rewrite slice_from_app_len.
      rewrite <- Hal, slice_from_app_len. cbn [app].
      apply IH. unfold DataUtils.candidate_ok, len. simpl.
      repeat split; try lia.
      intros x [<- | []]. lia.
    + apply IH. destruct Hok as (Hal & Hms & Hle & Htok).
      unfold is_batch_full in Hfull.
      unfold DataUtils.candidate_ok. rewrite !len_app, Hal.
      change (len [idx]) with 1. change (len [num_tokens_fn idx]) with 1.
      pose proof (len_nonneg batch) as Hnn.
      destruct (len batch =? 0) eqn:E0.
      * apply Z.eqb_eq in E0. repeat split; try lia.
        intros x Hx. apply in_app_iff in Hx as [Hx | [<- | []]]; [| lia].
        specialize (Hle x Hx). lia.
      * apply Z.eqb_neq in E0. cbn [eq_limit gt_limit] in Hfull.
        destruct (len batch =? max_sentences) eqn:E1; [discriminate |].
        apply Z.eqb_neq in E1.
        destruct (max_tokens <? _) eqn:E2; [discriminate |].
        apply Z.ltb_ge in E2.
        repeat split; try lia.
        intros x Hx. apply in_app_iff in Hx as [Hx | [<- | []]]; [| lia].
        specialize (Hle x Hx). lia.
Qed.
End Budget.

(** When nothing is carried over ([required_batch_size_multiple = 1]) every
    batch, the last one included, keeps to both limits or is a single
    oversized example. *)
Lemma batch_by_size_budget_mult1 f mt ms indices :
  1 <= ms ->
  Forall (fun b => respects_budget f mt ms b \/ singleton_overflow f mt b)
         (yielded (batch_by_size f (Some mt) (Some ms) 1 indices)).
Proof.
  intros Hms. unfold batch_by_size. apply batch_loop_budget; [exact Hms |].
  unfold DataUtils.candidate_ok, len. simpl. repeat split; try lia; intros x [].
Qed.

(** *** The claims about [batch_by_size] *)

(** C1 (conservation).  For every list of indices, size function and limits,
    and every [required_batch_size_multiple >= 1], [batch_by_size] runs to
    its end without raising, and the indices of all the batches it yields
    are the input indices, each as many times as in the input: none is
    dropped, none is duplicated. *)
Theorem batch_by_size_conservation
        (num_tokens_fn : Z -> Z) (max_tokens max_sentences : option Z)
        (required_batch_size_multiple : Z) (indices : list Z) :
  1 <= required_batch_size_multiple ->
  raised (batch_by_size num_tokens_fn max_tokens max_sentences
                        required_batch_size_multiple indices) = None /\
  Permutation
    (concat (yielded (batch_by_size num_tokens_fn max_tokens max_sentences
                                    required_batch_size_multiple indices)))
    indices.
Proof.
  intros Hm. unfold batch_by_size.
  destruct (batch_loop_concat num_tokens_fn max_tokens max_sentences
              required_batch_size_multiple indices ltac:(lia) [] 0 [])
    as [Hr Hc].
  split; [exact Hr |]. rewrite Hc. apply Permutation_refl.
Qed.

Lemma batch_by_size_conservation_witness :
  1 <= 1 /\
  raised (batch_by_size size_mod3 (Some 6) None 1 (range_list 10)) = None /\
  Permutation
    (concat (yielded (batch_by_size size_mod3 (Some 6) None 1 (range_list 10))))
    (range_list 10).
Proof.
  split; [lia |]. apply (batch_by_size_conservation size_mod3 (Some 6) None 1).
  lia.
Defined.

(** C2 (budget respect), at the input where the code leaves the budget.
    With [required_batch_size_multiple = 2], [max_tokens = 6],
    [max_sentences = 10] and sizes 1, 1, 1, 5, 1, the candidate [0, 1, 2] is
    closed when index 3 arrives; [[0, 1]] is yielded and index 2 is carried
    over and joined by index 3 without a new check.  The second batch
    [[2, 3]] is not the last one and holds two examples, neither larger than
    [max_tokens], yet [2 * 5 > 6]. *)
Theorem batch_by_size_budget_carry_overflow :
  yielded (batch_by_size size_one_big (Some 6) (Some 10) 2 [0; 1; 2; 3; 4])
  = [[0; 1]; [2; 3]; [4]] /\
  In [2; 3]
     (non_final
        (yielded (batch_by_size size_one_big (Some 6) (Some 10) 2
                                [0; 1; 2; 3; 4]))) /\
  ~ respects_budget size_one_big 6 10 [2; 3] /\
  ~ singleton_overflow size_one_big 6 [2; 3].
Proof.
  split; [reflexivity |]. split; [right; left; reflexivity |]. split.
  - intros [_ H]. vm_compute in H. apply H. reflexivity.
  - intros (i & Hi & _). discriminate.
Qed.

(** C6 (multiple constraint), as the code has it.  For every input and every
    [required_batch_size_multiple >= 1], every batch yielded before the last
    one has a length that is an exact multiple of
    [required_batch_size_multiple], or is shorter than
    [required_batch_size_multiple] (a candidate closed before it reached one
    multiple is yielded whole). *)
Theorem batch_by_size_multiple_or_short
        (num_tokens_fn : Z -> Z) (max_tokens max_sentences : option Z)
        (required_batch_size_multiple : Z) (indices : list Z) :
  1 <= required_batch_size_multiple ->
  Forall (fun b => multiple_of required_batch_size_multiple b \/
                   len b < required_batch_size_multiple)
         (non_final
            (yielded (batch_by_size num_tokens_fn max_tokens max_sentences
                                    required_batch_size_multiple indices))).
Proof.
  intros Hm. unfold batch_by_size. now apply batch_loop_multiple.
Qed.

Lemma batch_by_size_multiple_or_short_witness :
  1 <= 8 /\
  Forall (fun b => multiple_of 8 b \/ len b < 8)
         (non_final (yielded (batch_by_size (fun _ => 5) (Some 6) None 8 [0; 1]))).
Proof.
  split; [lia |].
  apply (batch_by_size_multiple_or_short (fun _ => 5) (Some 6) None 8 [0; 1]).
  lia.
Defined.

(** C6 as stated fails: with a multiple of 8, [max_tokens = 6] and two
    examples of size 5, the first batch [[0]] is closed by the token limit
    with one example in it. *)
Lemma batch_by_size_multiple_counterexample :
  yielded (batch_by_size (fun _ => 5) (Some 6) None 8 [0; 1]) = [[0]; [1]] /\
  ~ Forall (multiple_of 8)
      (non_final (yielded (batch_by_size (fun _ => 5) (Some 6) None 8 [0; 1]))).
Proof.
  split; [reflexivity |]. intros H. vm_compute in H.
  inversion H as [| b l Hb _]. discriminate Hb.
Qed.

End BatchFacts.

(** ** CountingIterator *)

Module CountingFacts.
Import Iterators.
Import CountingIterator.

Section Counting.
Context {A : Type}.
Implicit Types (self : CountingIterator.t A) (n : Z).


Lemma consume_spec (k : nat) self :
  iterable_ (consume k self) = iterable_ self /\
  itr (consume k self) = skipn k (itr self) /\
  count (consume k self)
  = count self + Z.of_nat (Nat.min k (length (itr self))).
Proof.
  revert self. induction k as [| k IH]; intros self.
  - simpl. repeat split. lia.
  - cbn [consume]. unfold gen_next. destruct self as [it c r].
    destruct r as [| x r]; cbn [itr count iterable_].
    + repeat split. simpl. lia.
    + destruct (IH (Make it (c + 1) r)) as (H1 & H2 & H3).
      rewrite H1, H2, H3. cbn [itr count iterable_ skipn length].
      repeat split. lia.
Qed.





Lemma skip_in_range self n :
  0 <= n <= sys_maxsize ->
  skip self n = (Ok tt, consume (Z.to_nat n) self).
Proof.
  intros Hn. unfold skip.
  destruct ((n <? 0) || (sys_maxsize <? n)) eqn:E; [| reflexivity].
  apply orb_true_iff in E as [E | E]; apply Z.ltb_lt in E; lia.
Qed.



End Counting.



End CountingFacts.

(** ** ShardedIterator *)

Module ShardedFacts.
Import Iterators.

Section Slices.
Context {A : Type}.

(** The [k]-th item the slice yields is the one [k] steps after [next],
    as long as that position is before [stop] and inside the sequence. *)
Lemma islice_go_lookup (l : list A) :
  forall i next stop step k,
    (i <= next)%nat -> (1 <= step)%nat ->
    nth_error (islice_go l i next stop step) k
    = if (next + k * step <? stop)%nat
      then nth_error l (next - i + k * step)
      else None.
Proof.
  induction l as [| x l IH]; intros i next stop step k Hi Hstep.
  - simpl. destruct (_ <? _)%nat; now rewrite !nth_error_nil.
  - cbn [islice_go].
    destruct (stop <=? i)%nat eqn:Es.
    + apply Nat.leb_le in Es. rewrite nth_error_nil.
      destruct (_ <? _)%nat eqn:E; [apply Nat.ltb_lt in E; lia | reflexivity].
    + apply Nat.leb_gt in Es.
      destruct (i =? next)%nat eqn:En.
      * apply Nat.eqb_eq in En. subst next.
        destruct k as [| k].
        -- simpl. rewrite Nat.add_0_r, Nat.sub_diag.
           destruct (i <? stop)%nat eqn:E; [reflexivity |].
           apply Nat.ltb_ge in E. lia.
        -- cbn [nth_error]. rewrite IH by lia.
           replace (i + step + k * step)%nat with (i + S k * step)%nat by lia.
           destruct (_ <? _)%nat; [| reflexivity].
           replace (i - i + S k * step)%nat
             with (S (i + step - S i + k * step)) by lia.
           reflexivity.
      * apply Nat.eqb_neq in En. rewrite IH by lia.
        destruct (_ <? _)%nat; [| reflexivity].
        replace (next - i + k * step)%nat
          with (S (next - S i + k * step)) by lia.
        reflexivity.
Qed.

Lemma zip_longest_nil_r (xs : list Z) (fill : A) :
  map (ShardedIterator.second fill) (zip_longest xs []) = repeat fill (length xs).
Proof. induction xs as [| x xs IH]; simpl; [reflexivity | now rewrite IH]. Qed.

(** When the second sequence is not the longer one, the second components
    are its items followed by the fill value. *)
Lemma zip_longest_second (xs : list Z) (fill : A) :
  forall ys : list A,
    (length ys <= length xs)%nat ->
    map (ShardedIterator.second fill) (zip_longest xs ys)
    = ys ++ repeat fill (length xs - length ys).
Proof.
  induction xs as [| x xs IH]; intros ys Hlen.
  - destruct ys; [reflexivity | simpl in Hlen; lia].
  - destruct ys as [| y ys].
    + cbn [zip_longest map]. rewrite zip_longest_nil_r. reflexivity.
    + cbn [zip_longest map]. simpl in Hlen. rewrite IH by lia. reflexivity.
Qed.
End Slices.

Lemma length_range (n : Z) : length (range n) = Z.to_nat n.
Proof. unfold range. now rewrite length_map, length_seq. Qed.

(** The two-step computation of [_sharded_len] is the ceiling of the
    quotient. *)
Lemma sharded_len_ceil (L n : Z) :
  0 <= L -> 1 <= n ->
  (if 0 <? L mod n then L / n + 1 else L / n) = ceil_div L n.
Proof.
  intros HL Hn. unfold ceil_div.
  pose proof (Z.div_mod L n ltac:(lia)) as Hdm.
  pose proof (Z.mod_pos_bound L n ltac:(lia)) as Hb.
  destruct (0 <? L mod n) eqn:E.
  - apply Z.ltb_lt in E.
    apply (Z.div_unique (L + n - 1) n (L / n + 1) (L mod n - 1)); lia.
  - apply Z.ltb_ge in E.
    apply (Z.div_unique (L + n - 1) n (L / n) (n - 1)); lia.
Qed.

Lemma ceil_div_bounds (L n : Z) :
  0 <= L -> 1 <= n -> 0 <= ceil_div L n /\ L <= ceil_div L n * n.
Proof.
  intros HL Hn. rewrite <- sharded_len_ceil by lia.
  pose proof (Z.div_mod L n ltac:(lia)) as Hdm.
  pose proof (Z.mod_pos_bound L n ltac:(lia)) as Hb.
  assert (0 <= L / n) by (apply Z.div_pos; lia).
  destruct (0 <? L mod n) eqn:E.
  - split; [lia | nia].
  - apply Z.ltb_ge in E. split; [lia | nia].
Qed.

Section Shape.
Context {A : Type}.

(** [islice] accepts exactly the bounds between 0 and [sys.maxsize], with
    a step of at least 1. *)
Lemma islice_in_range (l : list A) (start stop step : Z) :
  0 <= start <= sys_maxsize -> 0 <= stop <= sys_maxsize ->
  1 <= step <= sys_maxsize ->
  islice l start stop step
  = Ok (islice_go l 0 (Z.to_nat start) (Z.to_nat stop) (Z.to_nat step)).
Proof.
  intros H1 H2 H3. unfold islice.
  destruct ((start <? 0) || (stop <? 0) || (step <? 1)
            || (sys_maxsize <? start) || (sys_maxsize <? stop)
            || (sys_maxsize <? step)) eqn:E; [| reflexivity].
  repeat (apply orb_true_iff in E as [E | E]); apply Z.ltb_lt in E; lia.
Qed.

Lemma islice_ok_bounds (l : list A) (start stop step : Z) (r : list A) :
  islice l start stop step = Ok r ->
  0 <= start <= sys_maxsize /\ 0 <= stop <= sys_maxsize /\
  1 <= step <= sys_maxsize.
Proof.
  unfold islice.
  destruct ((start <? 0) || (stop <? 0) || (step <? 1)
            || (sys_maxsize <? start) || (sys_maxsize <? stop)
            || (sys_maxsize <? step)) eqn:E; [discriminate |].
  intros _.
  repeat (apply orb_false_iff in E as [E ?]).
  repeat match goal with
         | H : (_ <? _) = false |- _ => apply Z.ltb_ge in H
         end.
  lia.
Qed.

Lemma islice_out_of_range (l : list A) (start stop step : Z) :
  ~ (0 <= start <= sys_maxsize /\ 0 <= stop <= sys_maxsize /\
     1 <= step <= sys_maxsize) ->
  islice l start stop step = Raise ValueError.
Proof.
  intros Hn. unfold islice.
  destruct ((start <? 0) || (stop <? 0) || (step <? 1)
            || (sys_maxsize <? start) || (sys_maxsize <? stop)
            || (sys_maxsize <? step)) eqn:E; [reflexivity |].
  exfalso. apply Hn.
  repeat (apply orb_false_iff in E as [E ?]).
  repeat match goal with
         | H : (_ <? _) = false |- _ => apply Z.ltb_ge in H
         end.
  lia.
Qed.

(** A shard that was built has a valid descriptor, and neither the number
    of shards nor the length of the sequence exceeds [sys.maxsize]. *)
Lemma sharded_init_ok_bounds (iterable : list A)
      (num_shards shard_id : Z) (fill_value : A) self :
  ShardedIterator.__init__ iterable num_shards shard_id fill_value = Ok self ->
  0 <= shard_id < num_shards /\ num_shards <= sys_maxsize /\
  len iterable <= sys_maxsize.
Proof.
  unfold ShardedIterator.__init__.
  destruct ((shard_id <? 0) || (num_shards <=? shard_id)) eqn:E;
    [discriminate |].
  apply orb_false_iff in E as [E1 E2].
  apply Z.ltb_ge in E1. apply Z.leb_gt in E2.
  destruct (islice iterable shard_id (len iterable) num_shards) as [sl | e]
    eqn:Hsl; [| discriminate].
  intros _. apply islice_ok_bounds in Hsl. lia.
Qed.

Lemma sharded_init_spec (iterable : list A)
      (num_shards shard_id : Z) (fill_value : A) :
  0 <= shard_id < num_shards ->
  num_shards <= sys_maxsize -> len iterable <= sys_maxsize ->
  exists self,
    ShardedIterator.__init__ iterable num_shards shard_id fill_value = Ok self /\
    ShardedIterator.__len__ self = ceil_div (len iterable) num_shards /\
    len (ShardedIterator.items self) = ceil_div (len iterable) num_shards /\
    forall j : nat,
      Z.of_nat j < ceil_div (len iterable) num_shards ->
      nth j (ShardedIterator.items self) fill_value
      = nth (Z.to_nat (shard_id + Z.of_nat j * num_shards)) iterable fill_value.
Proof.
  intros Hs Hmax HLmax. unfold ShardedIterator.__init__.
  destruct ((shard_id <? 0) || (num_shards <=? shard_id)) eqn:E.
  { apply orb_true_iff in E as [E | E];
      [apply Z.ltb_lt in E | apply Z.leb_le in E]; lia. }
  pose proof (BatchFacts.len_nonneg iterable) as HL.
  rewrite islice_in_range by lia.
  rewrite sharded_len_ceil by lia.
  destruct (ceil_div_bounds (len iterable) num_shards ltac:(lia) ltac:(lia))
    as [Hc0 Hc1].
  set (c := ceil_div (len iterable) num_shards) in *.
  set (ys := islice_go iterable 0 (Z.to_nat shard_id)
                       (Z.to_nat (len iterable)) (Z.to_nat num_shards)).
  assert (Hys : forall k,
             nth_error ys k
             = if (Z.to_nat shard_id + k * Z.to_nat num_shards
                   <? Z.to_nat (len iterable))%nat
               then nth_error iterable
                      (Z.to_nat shard_id + k * Z.to_nat num_shards)
               else None).
  { intros k. unfold ys. rewrite islice_go_lookup by lia.
    now rewrite Nat.sub_0_r. }
  assert (Hlen : (length ys <= Z.to_nat c)%nat).
  { apply nth_error_None. rewrite Hys.
    destruct (_ <? _)%nat eqn:E3; [| reflexivity].
    apply Nat.ltb_lt in E3. exfalso.
    assert (Z.to_nat c * Z.to_nat num_shards >= Z.to_nat (len iterable))%nat
      by (rewrite <- Z2Nat.inj_mul by lia; apply Z2Nat.inj_le; lia).
    lia. }
  eexists. split; [reflexivity |].
  unfold ShardedIterator.__len__, ShardedIterator.items.
  cbn [ShardedIterator._sharded_len ShardedIterator.itr
       ShardedIterator.fill_value].
  rewrite zip_longest_second by (rewrite length_range; exact Hlen).
  rewrite length_range.
  split; [reflexivity |]. split.
  - unfold len. rewrite length_app, repeat_length. lia.
  - intros j Hj.
    assert (Hjn : 0 <= Z.of_nat j * num_shards) by nia.
    replace (Z.to_nat (shard_id + Z.of_nat j * num_shards))
      with (Z.to_nat shard_id + j * Z.to_nat num_shards)%nat
      by (rewrite Z2Nat.inj_add, Z2Nat.inj_mul, Nat2Z.id by lia; reflexivity).
    specialize (Hys j).
    destruct (Nat.lt_ge_cases j (length ys)) as [Hin | Hout].
    + rewrite app_nth1 by exact Hin.
      destruct (_ <? _)%nat eqn:E3 in Hys.
      * apply nth_error_nth' with (d := fill_value) in Hin.
        rewrite Hin in Hys. apply Nat.ltb_lt in E3.
        rewrite nth_error_nth' with (d := fill_value) in Hys
          by (unfold len in E3; lia).
        congruence.
      * apply nth_error_None in Hys. lia.
    + rewrite app_nth2 by lia.
      rewrite nth_repeat.
      destruct (_ <? _)%nat eqn:E3 in Hys.
      * apply nth_error_None in Hout. rewrite Hout in Hys.
        symmetry in Hys. apply nth_error_None in Hys.
        now rewrite nth_overflow.
      * apply Nat.ltb_ge in E3. rewrite nth_overflow; [reflexivity |].
        unfold len in E3. lia.
Qed.

Lemma sharded_init_invalid (iterable : list A)
      (num_shards shard_id : Z) (fill_value : A) :
  ~ 0 <= shard_id < num_shards ->
  ShardedIterator.__init__ iterable num_shards shard_id fill_value
  = Raise ValueError.
Proof.
  intros Hs. unfold ShardedIterator.__init__.
  destruct ((shard_id <? 0) || (num_shards <=? shard_id)) eqn:E;
    [reflexivity |].
  apply orb_false_iff in E as [E1 E2].
  apply Z.ltb_ge in E1. apply Z.leb_gt in E2. lia.
Qed.

(** A descriptor inside the range is still refused when the number of
    shards is more than [itertools.islice] takes as a step. *)
Lemma sharded_init_too_many_shards (iterable : list A)
      (num_shards shard_id : Z) (fill_value : A) :
  0 <= shard_id < num_shards -> sys_maxsize < num_shards ->
  ShardedIterator.__init__ iterable num_shards shard_id fill_value
  = Raise ValueError.
Proof.
  intros Hs Hbig. unfold ShardedIterator.__init__.
  destruct ((shard_id <? 0) || (num_shards <=? shard_id)) eqn:E;
    [reflexivity |].
  rewrite islice_out_of_range by lia. reflexivity.
Qed.

(** C5 ([ShardedIterator] shape).  Take a sequence of length [L] (at most
    [sys.maxsize], as every Python sequence is) and a shard descriptor with
    [0 <= shard_id < num_shards].  When [num_shards <= sys.maxsize], the
    constructor succeeds; the shard reports and yields exactly
    [ceil(L / num_shards)] items; its [j]-th item is the element of the
    sequence at position [shard_id + j * num_shards], and the fill value
    when that position is past the end of the sequence.  The length does
    not depend on [shard_id], so all shards of a sequence report the same
    length.  When [num_shards > sys.maxsize], the constructor raises
    [ValueError]. *)
Theorem sharded_iterator_shape (iterable : list A)
        (num_shards shard_id : Z) (fill_value : A) :
  0 <= shard_id < num_shards ->
  len iterable <= sys_maxsize ->
  if num_shards <=? sys_maxsize then
    exists self,
      ShardedIterator.__init__ iterable num_shards shard_id fill_value
      = Ok self /\
      ShardedIterator.__len__ self = ceil_div (len iterable) num_shards /\
      len (ShardedIterator.items self) = ceil_div (len iterable) num_shards /\
      forall j : nat,
        Z.of_nat j < ceil_div (len iterable) num_shards ->
        nth j (ShardedIterator.items self) fill_value
        = nth (Z.to_nat (shard_id + Z.of_nat j * num_shards)) iterable
              fill_value
  else
    ShardedIterator.__init__ iterable num_shards shard_id fill_value
    = Raise ValueError.
Proof.
  intros Hs HL.
  destruct (num_shards <=? sys_maxsize) eqn:Hmax.
  - apply Z.leb_le in Hmax. now apply sharded_init_spec.
  - apply Z.leb_gt in Hmax. now apply sharded_init_too_many_shards.
Qed.
End Shape.

Lemma sharded_iterator_shape_witness :
  0 <= 2 < 3 /\ len (range_list 7) <= sys_maxsize /\
  exists self,
    ShardedIterator.__init__ (range_list 7) 3 2 (-1) = Ok self /\
    ShardedIterator.__len__ self = ceil_div (len (range_list 7)) 3 /\
    len (ShardedIterator.items self) = ceil_div (len (range_list 7)) 3 /\
    forall j : nat,
      Z.of_nat j < ceil_div (len (range_list 7)) 3 ->
      nth j (ShardedIterator.items self) (-1)
      = nth (Z.to_nat (2 + Z.of_nat j * 3)) (range_list 7) (-1).
Proof.
  split; [lia |]. split; [vm_compute; discriminate |].
  apply (sharded_iterator_shape (range_list 7) 3 2 (-1));
    [lia | vm_compute; discriminate].
Defined.

(** C5 as stated fails: the descriptor [shard_id = 1], [num_shards = 2 ** 63]
    is inside the range, yet the constructor raises [ValueError] on a
    sequence of seven items, because [itertools.islice] takes no step above
    [sys.maxsize]. *)
Lemma sharded_iterator_shape_counterexample :
  0 <= 1 < 2 ^ 63 /\
  ShardedIterator.__init__ (range_list 7) (2 ^ 63) 1 (-1) = Raise ValueError /\
  ~ exists self,
      ShardedIterator.__init__ (range_list 7) (2 ^ 63) 1 (-1) = Ok self.
Proof.
  split; [lia |].
  assert (E : ShardedIterator.__init__ (range_list 7) (2 ^ 63) 1 (-1)
              = Raise ValueError) by (vm_compute; reflexivity).
  split; [exact E |]. intros [self Hself]. rewrite E in Hself. discriminate.
Qed.

End ShardedFacts.

(** ** numpy_seed and EpochBatchIterator *)

Module EpochFacts.
Import DataUtils.
Import Iterators.
Import EpochBatchIterator.

Section Seed.
Context {R : NumpyRandom} {Store : Type}.

(** Whatever the body does, and whether or not the seed is accepted, the
    generator is afterwards in the state it was in before. *)
Lemma numpy_seed_restores {A : Type} (s : Z) (body : M Store A)
      (w : world Store) :
  rng (snd (numpy_seed (Some s) body w)) = rng w.
Proof.
  unfold numpy_seed, bind, np_random_get_state, np_random_seed,
    np_random_set_state.
  destruct (seed_ok s); [| reflexivity].
  destruct (body _) as [r w']. reflexivity.
Qed.

(** The body runs on the generator seeded with [s]; the rest of the world
    is what the body leaves. *)
Lemma numpy_seed_runs_seeded {A : Type} (s : Z) (body : M Store A)
      (w : world Store) :
  seed_ok s = true ->
  numpy_seed (Some s) body w
  = (fst (body (World (heap w) (seed_state s))),
     World (heap (snd (body (World (heap w) (seed_state s))))) (rng w)).
Proof.
  intros Hs.
  unfold numpy_seed, bind, np_random_get_state, np_random_seed,
    np_random_set_state.
  rewrite Hs. destruct (body _) as [r w']. reflexivity.
Qed.

Lemma numpy_seed_rejected {A : Type} (s : Z) (body : M Store A)
      (w : world Store) :
  seed_ok s = false -> numpy_seed (Some s) body w = (Raise ValueError, w).
Proof.
  intros Hs.
  unfold numpy_seed, bind, np_random_get_state, np_random_seed.
  now rewrite Hs.
Qed.
End Seed.

Section Store.
Context {R : NumpyRandom} {A : Type}.
Implicit Types (w : world (gmap loc (CountingIterator.t A))) (l : loc).

Lemma on_obj_at {B : Type} l
      (f : CountingIterator.t A -> result B * CountingIterator.t A) w c :
  heap w !! l = Some c ->
  on_obj l f w = (fst (f c), World (<[l := snd (f c)]> (heap w)) (rng w)).
Proof.
  intros Hl. unfold on_obj. rewrite Hl. now destruct (f c).
Qed.

Lemma alloc_at (c : CountingIterator.t A) w :
  exists l, alloc c w = (Ok l, World (<[l := c]> (heap w)) (rng w)) /\
            heap (snd (alloc c w)) !! l = Some c.
Proof.
  unfold alloc. eexists. split; [reflexivity |]. simpl.
  apply lookup_insert_eq.
Qed.

(** Reading to the end gives the items the generator had left. *)
Lemma rest_go_spec (fuel : nat) l :
  forall w c,
    heap w !! l = Some c ->
    (length (CountingIterator.itr c) < fuel)%nat ->
    fst (rest_go fuel l w) = Ok (CountingIterator.itr c).
Proof.
  induction fuel as [| fuel IH]; intros w c Hl Hf; [lia |].
  cbn [rest_go]. rewrite (on_obj_at l _ w c Hl).
  unfold CountingIterator.__next__, CountingIterator.gen_next.
  destruct c as [it n [| x r]]; cbn [CountingIterator.itr fst snd] in *.
  - reflexivity.
  - unfold bind, ret.
    match goal with
    | |- context [rest_go fuel l ?w'] =>
        pose proof (IH w' (CountingIterator.Make it (n + 1) r)) as IH';
        destruct (rest_go fuel l w') as [r0 w'']
    end.
    cbn [CountingIterator.itr heap fst] in IH'.
    rewrite IH'; [reflexivity | apply lookup_insert_eq | simpl in *; lia].
Qed.

Lemma rest_spec l w c :
  heap w !! l = Some c -> fst (rest l w) = Ok (CountingIterator.itr c).
Proof.
  intros Hl. unfold rest. rewrite Hl. eapply rest_go_spec; [exact Hl | lia].
Qed.

(** [k] calls of [next] give the first [k] items left and move the count. *)
Lemma next_n_spec (k : nat) l :
  forall w c,
    heap w !! l = Some c ->
    (k <= length (CountingIterator.itr c))%nat ->
    next_n k l w
    = (Ok (firstn k (CountingIterator.itr c)),
       World (<[l := CountingIterator.Make
                        (CountingIterator.iterable_ c)
                        (CountingIterator.count c + Z.of_nat k)
                        (skipn k (CountingIterator.itr c))]> (heap w))
             (rng w)).
Proof.
  induction k as [| k IH]; intros w c Hl Hk.
  - cbn [next_n firstn skipn]. unfold ret. rewrite Z.add_0_r.
    destruct c as [it n r]. cbn [CountingIterator.iterable_
      CountingIterator.count CountingIterator.itr].
    rewrite insert_id by exact Hl. now destruct w.
  - cbn [next_n]. unfold bind at 1. rewrite (on_obj_at l _ w c Hl).
    unfold CountingIterator.__next__, CountingIterator.gen_next.
    destruct c as [it n [| x r]]; cbn [CountingIterator.itr] in *;
      [simpl in Hk; lia |].
    cbn [fst snd]. unfold bind.
    rewrite (IH _ (CountingIterator.Make it (n + 1) r));
      [| apply lookup_insert_eq | simpl in *; lia].
    unfold ret. cbn [heap rng CountingIterator.iterable_
      CountingIterator.count CountingIterator.itr firstn skipn].
    rewrite insert_insert_eq.
    replace (n + 1 + Z.of_nat k) with (n + Z.of_nat (S k)) by lia.
    reflexivity.
Qed.
End Store.

Section Epoch.
Context {R : NumpyRandom} {sample payload : Type}.
Implicit Types (self : EpochBatchIterator.t sample payload)
         (w : world (gmap loc (CountingIterator.t payload))).

Lemma epoch_batches_spec self (e : Z) (shuffle : bool) w :
  epoch_batches self e shuffle w = (epoch_order self e shuffle, w).
Proof.
  unfold epoch_batches, epoch_order. destruct shuffle.
  - destruct (seed_ok (seed self + e)) eqn:Hs.
    + rewrite numpy_seed_runs_seeded by exact Hs.
      unfold np_random_shuffle. cbn [rng heap].
      destruct (shuffle_with _ _) as [b g]. cbn [fst snd heap].
      now destruct w.
    + now rewrite numpy_seed_rejected.
  - reflexivity.
Qed.

(** Deriving an epoch's iterator stores a new counting iterator over
    [epoch_iterable] and changes nothing else; when the batch order or the
    sampler cannot be built it raises and changes nothing. *)
Lemma get_iterator_spec self (e : Z) (shuffle : bool) w :
  match epoch_iterable self e shuffle with
  | Raise ex => _get_iterator_for_epoch self e shuffle w = (Raise ex, w)
  | Ok it =>
      let l := fresh (dom (heap w)) in
      _get_iterator_for_epoch self e shuffle w
      = (Ok l, World (<[l := CountingIterator.__init__ it]> (heap w)) (rng w))
  end.
Proof.
  unfold _get_iterator_for_epoch, epoch_iterable, bind.
  rewrite epoch_batches_spec.
  destruct (epoch_order self e shuffle) as [batches | ex]; [| reflexivity].
  destruct (ShardedIterator.__init__ _ _ _ _) as [sampler | ex];
    [| reflexivity].
  reflexivity.
Qed.

(** The iterable of an epoch depends on the constructor arguments and on
    [seed + epoch] only. *)
Lemma epoch_iterable_ext (a b : EpochBatchIterator.t sample payload)
      (ea eb : Z) (shuffle : bool) :
  dataset a = dataset b -> collate_fn a = collate_fn b ->
  frozen_batches a = frozen_batches b ->
  num_shards a = num_shards b -> shard_id a = shard_id b ->
  seed a + ea = seed b + eb ->
  epoch_iterable a ea shuffle = epoch_iterable b eb shuffle.
Proof.
  intros Hd Hc Hf Hn Hs Hse. unfold epoch_iterable, epoch_order.
  now rewrite Hd, Hc, Hf, Hn, Hs, Hse.
Qed.

(** An epoch's iterable that was derived comes from a shard of the epoch's
    batch order, and that shard has the shape of [sharded_init_spec]. *)
Lemma epoch_iterable_ok self (e : Z) (shuffle : bool) it :
  epoch_iterable self e shuffle = Ok it ->
  exists batches sh,
    epoch_order self e shuffle = Ok batches /\
    ShardedIterator.__init__ batches (num_shards self) (shard_id self) []
    = Ok sh /\
    it = DataLoader (dataset self) (collate_fn self) sh /\
    0 <= shard_id self < num_shards self /\
    num_shards self <= sys_maxsize /\ len batches <= sys_maxsize /\
    ShardedIterator.__len__ sh = ceil_div (len batches) (num_shards self) /\
    len (ShardedIterator.items sh) = ceil_div (len batches) (num_shards self).
Proof.
  unfold epoch_iterable.
  destruct (epoch_order self e shuffle) as [batches | ex]; [| discriminate].
  destruct (ShardedIterator.__init__ batches (num_shards self)
              (shard_id self) []) as [sh | ex] eqn:Hsh; [| discriminate].
  intros [= <-].
  destruct (ShardedFacts.sharded_init_ok_bounds _ _ _ _ _ Hsh)
    as (Hv & Hn & HL).
  destruct (ShardedFacts.sharded_init_spec batches (num_shards self)
              (shard_id self) [] Hv Hn HL) as (sh' & Hsh' & Hl1 & Hl2 & _).
  rewrite Hsh in Hsh'. injection Hsh' as <-.
  exists batches, sh. repeat split; try assumption; lia.
Qed.

(** The length an epoch's iterable reports is the number of its items. *)
Lemma epoch_iterable_len self (e : Z) (shuffle : bool) it :
  epoch_iterable self e shuffle = Ok it ->
  it_len it = len (it_items it).
Proof.
  intros Hit.
  destruct (epoch_iterable_ok self e shuffle it Hit)
    as (batches & sh & _ & _ & -> & _ & _ & _ & Hl1 & Hl2).
  unfold DataLoader. cbn [it_len it_items].
  unfold len in *. rewrite length_map. congruence.
Qed.

(** The length of a derived epoch iterable is at most [sys.maxsize]. *)
Lemma epoch_iterable_len_bound self (e : Z) (shuffle : bool) it :
  epoch_iterable self e shuffle = Ok it ->
  it_len it <= sys_maxsize.
Proof.
  intros Hit.
  destruct (epoch_iterable_ok self e shuffle it Hit)
    as (batches & sh & _ & _ & -> & Hv & _ & HL & Hl1 & _).
  unfold DataLoader. cbn [it_len]. rewrite Hl1.
  pose proof (BatchFacts.len_nonneg batches) as H0.
  unfold ceil_div.
  apply Z.le_trans with (len batches); [| exact HL].
  apply Z.lt_succ_r. apply Z.div_lt_upper_bound; nia.
Qed.

Lemma uninterrupted_run_spec self (shuffle : bool) w :
  _next_epoch_itr self = None ->
  uninterrupted_run self shuffle w
  = match epoch_iterable self (epoch self + 1) shuffle with
    | Raise ex => Raise ex
    | Ok it => Ok (it_items it)
    end.
Proof.
  intros Hn. unfold uninterrupted_run, next_epoch_itr. rewrite Hn.
  cbn [epoch set_epoch].
  pose proof (get_iterator_spec (set_epoch (epoch self + 1) self)
                (epoch self + 1) shuffle w) as Hg.
  rewrite (epoch_iterable_ext (set_epoch (epoch self + 1) self) self
             (epoch self + 1) (epoch self + 1) shuffle) in Hg
    by reflexivity.
  destruct (epoch_iterable self (epoch self + 1) shuffle) as [it | ex].
  - cbv zeta in Hg. rewrite Hg.
    erewrite rest_spec; [| apply lookup_insert_eq]. reflexivity.
  - now rewrite Hg.
Qed.
End Epoch.

Section Claims.
Context {R : NumpyRandom} {sample payload : Type}.
Implicit Types (self : EpochBatchIterator.t sample payload)
         (w : world (gmap loc (CountingIterator.t payload))).

(** C9 (the global generator is framed).  Deriving an epoch iterator with
    [shuffle = True] leaves the generator state as it was before the
    call; the shuffle itself runs on the generator seeded with
    [seed + epoch] (and a seed NumPy rejects raises before anything is
    changed).  [numpy_seed] with a seed restores the saved state after any
    body, also one that raises; with [None] it is the body alone. *)
Theorem global_rng_framed self (e : Z) w
        (A : Type) (s : Z) (body : M (gmap loc (CountingIterator.t payload)) A) :
  rng (snd (_get_iterator_for_epoch self e true w)) = rng w /\
  epoch_batches self e true w
  = (if seed_ok (seed self + e)
     then Ok (fst (shuffle_with (seed_state (seed self + e))
                                (frozen_batches self)))
     else Raise ValueError, w) /\
  rng (snd (numpy_seed (Some s) body w)) = rng w /\
  numpy_seed None body = body.
Proof.
  split; [| split; [| split]].
  - pose proof (get_iterator_spec self e true w) as Hg.
    destruct (epoch_iterable self e true) as [it | ex].
    + cbv zeta in Hg. rewrite Hg. reflexivity.
    + now rewrite Hg.
  - rewrite epoch_batches_spec. reflexivity.
  - apply numpy_seed_restores.
  - reflexivity.
Qed.

(** C8 (epoch counter discipline).  A newly constructed iterator has
    [epoch = 0].  A call of [next_epoch_itr] with no pending lookahead
    adds exactly 1 to [epoch] and derives the iterator of that new epoch
    (the counter keeps the new value also when the derivation raises); a
    call that finds a pending lookahead returns it, clears it, and leaves
    [epoch] and the world unchanged. *)
Theorem epoch_counter_discipline
        (ds : Z -> sample) (collate : list sample -> payload)
        (batch_sampler : list (list Z)) (sd ns sid : Z)
        self (shuffle : bool) w :
  epoch (__init__ ds collate batch_sampler sd ns sid) = 0 /\
  let '(r, self', w') := next_epoch_itr self shuffle w in
  match _next_epoch_itr self with
  | None =>
      epoch self' = epoch self + 1 /\
      (r, w') = _get_iterator_for_epoch (set_epoch (epoch self + 1) self)
                                        (epoch self + 1) shuffle w
  | Some l =>
      r = Ok l /\ epoch self' = epoch self /\ w' = w /\
      _cur_epoch_itr self' = Some l /\ _next_epoch_itr self' = None
  end.
Proof.
  split; [reflexivity |].
  unfold next_epoch_itr. destruct (_next_epoch_itr self) as [l |].
  - repeat split.
  - cbn [epoch set_epoch].
    destruct (_get_iterator_for_epoch _ _ _ _) as [[it | ex] w'];
      split; reflexivity.
Qed.

(** C4 (determinism).  Two iterators over the same dataset, collate
    function and frozen plan, with the same shard descriptor and the same
    [seed + epoch] (in particular the same seed at the same epoch), neither
    holding a lookahead, begin their next epoch with the same shuffle flag:
    they yield the same sequence of batches, or raise the same exception,
    whatever the state of the global generator and of the rest of either
    process. *)
Theorem epoch_iteration_deterministic
        (a b : EpochBatchIterator.t sample payload) (shuffle : bool)
        (wa wb : world (gmap loc (CountingIterator.t payload))) :
  dataset a = dataset b -> collate_fn a = collate_fn b ->
  frozen_batches a = frozen_batches b ->
  num_shards a = num_shards b -> shard_id a = shard_id b ->
  seed a + epoch a = seed b + epoch b ->
  _next_epoch_itr a = None -> _next_epoch_itr b = None ->
  uninterrupted_run a shuffle wa = uninterrupted_run b shuffle wb.
Proof.
  intros Hd Hc Hf Hn Hs Hse Ha Hb.
  rewrite !uninterrupted_run_spec by assumption.
  rewrite (epoch_iterable_ext a b (epoch a + 1) (epoch b + 1) shuffle)
    by (try assumption; lia).
  reflexivity.
Qed.
End Claims.

Lemma epoch_iteration_deterministic_witness :
  let a := example_iterator in
  let b := EpochBatchIterator.set_epoch 2
             (EpochBatchIterator.__init__ (fun i => i) (fun x => x)
                                          three_batches (-1) 1 0) in
  let wb : world (R := rotating_random)
                 (gmap loc (CountingIterator.t (list Z))) :=
    World ∅ (7 : @rng_state rotating_random) in
  uninterrupted_run a true empty_world = uninterrupted_run b true wb.
Proof.
  apply (epoch_iteration_deterministic (R := rotating_random));
    reflexivity.
Defined.

Section Resume.
Context {R : NumpyRandom} {sample payload : Type}.
Implicit Types (self : EpochBatchIterator.t sample payload)
         (w : world (gmap loc (CountingIterator.t payload))).

Lemma keys_distinct :
  k_epoch <> k_iterations_in_epoch /\ k_epoch <> k_shuffle /\
  k_iterations_in_epoch <> k_shuffle.
Proof. repeat split; discriminate. Qed.

(** What [load_state_dict] does once the epoch's iterator is known. *)
Lemma load_state_dict_spec self (sd : gmap string pyval) (e : pyval)
      (it : iterable payload) w :
  sd !! k_epoch = Some e ->
  epoch_iterable self (as_int e)
    (truthy (default (VBool true) (sd !! k_shuffle))) = Ok it ->
  let p := as_int (default (VInt 0) (sd !! k_iterations_in_epoch)) in
  load_state_dict self sd w
  = if 0 <? p then
      let l := fresh (dom (heap w)) in
      if p <? it_len it then
        (Ok tt, set_next (Some l) (set_epoch (as_int e) self),
         World (<[l := CountingIterator.consume (Z.to_nat p)
                          (CountingIterator.__init__ it)]> (heap w)) (rng w))
      else
        (Ok tt, set_epoch (as_int e) self,
         World (<[l := CountingIterator.__init__ it]> (heap w)) (rng w))
    else (Ok tt, set_epoch (as_int e) self, w).
Proof.
  intros He Hit p. unfold load_state_dict. rewrite He. fold p.
  destruct (0 <? p) eqn:Hp; [| reflexivity].
  cbn [epoch set_epoch].
  pose proof (get_iterator_spec (set_epoch (as_int e) self) (as_int e)
                (truthy (default (VBool true) (sd !! k_shuffle))) w) as Hg.
  rewrite (epoch_iterable_ext (set_epoch (as_int e) self) self
             (as_int e) (as_int e)) in Hg by reflexivity.
  rewrite Hit in Hg. cbv zeta in Hg. rewrite Hg.
  rewrite (on_obj_at _ _ _ (CountingIterator.__init__ it))
    by apply lookup_insert_eq.
  cbn [fst snd heap rng]. rewrite insert_insert_eq.
  change (CountingIterator.__len__ (CountingIterator.__init__ it))
    with (it_len it).
  destruct (p <? it_len it) eqn:Hlt; [| reflexivity].
  rewrite (on_obj_at _ _ _ (CountingIterator.__init__ it))
    by apply lookup_insert_eq.
  apply Z.ltb_lt in Hp. apply Z.ltb_lt in Hlt.
  pose proof (epoch_iterable_len_bound _ _ _ _ Hit) as Hmax.
  rewrite CountingFacts.skip_in_range by lia.
  cbn [fst snd heap rng]. rewrite insert_insert_eq. reflexivity.
Qed.


(** [load_state_dict] assigns [_next_epoch_itr] only when it fast-forwards:
    a lookahead that is pending when an overflowing checkpoint is loaded
    stays, and the next [next_epoch_itr] hands out that stale iterator
    without moving to the following epoch. *)
Lemma load_state_dict_keeps_pending_lookahead self (sd : gmap string pyval)
      (e : pyval) (it : iterable payload) (shuffle2 : bool) (l0 : loc) w :
  _next_epoch_itr self = Some l0 ->
  sd !! k_epoch = Some e ->
  epoch_iterable self (as_int e)
    (truthy (default (VBool true) (sd !! k_shuffle))) = Ok it ->
  let p := as_int (default (VInt 0) (sd !! k_iterations_in_epoch)) in
  0 < p -> it_len it <= p ->
  let '(r, self', w') := load_state_dict self sd w in
  r = Ok tt /\ _next_epoch_itr self' = Some l0 /\
  let '(r2, self2, w2) := next_epoch_itr self' shuffle2 w' in
  r2 = Ok l0 /\ epoch self2 = as_int e /\ w2 = w' /\
  _cur_epoch_itr self2 = Some l0.
Proof.
  intros Hn He Hit p Hp Hlen.
  rewrite (load_state_dict_spec self sd e it w He Hit). fold p.
  destruct (0 <? p) eqn:E; [| apply Z.ltb_ge in E; lia].
  cbv zeta.
  destruct (p <? it_len it) eqn:E2; [apply Z.ltb_lt in E2; lia |].
  split; [reflexivity |]. split; [exact Hn |].
  unfold next_epoch_itr.
  change (_next_epoch_itr (set_epoch (as_int e) self))
    with (_next_epoch_itr self).
  rewrite Hn. repeat split.
Qed.

(** C3 (resume), as the code has it.  Let no lookahead be pending, let the
    epoch be begun with [shuffle = True], and let its uninterrupted run
    yield the batches [all].  For every [k] with [0 < k < length all]:
    reading [k] batches, taking [state_dict()], building the iterator
    again from the same constructor arguments in any other process,
    loading the state and calling [next_epoch_itr] (with any flag) yields
    exactly the batches of [all] after the first [k], in the same order. *)
Theorem resume_yields_remaining self (k : nat) (all : list payload)
        (shuffle_new : bool)
        (w w_new : world (gmap loc (CountingIterator.t payload))) :
  _next_epoch_itr self = None ->
  uninterrupted_run self true w = Ok all ->
  (0 < k < length all)%nat ->
  resumed_run self true k w w_new shuffle_new = Ok (skipn k all).
Proof.
  intros Hn Hrun Hk.
  rewrite uninterrupted_run_spec in Hrun by exact Hn.
  destruct (epoch_iterable self (epoch self + 1) true) as [it | ex] eqn:Hit;
    [| discriminate].
  injection Hrun as <-.
  unfold resumed_run, next_epoch_itr at 1. rewrite Hn. cbn [epoch set_epoch].
  pose proof (get_iterator_spec (set_epoch (epoch self + 1) self)
                (epoch self + 1) true w) as Hg.
  rewrite (epoch_iterable_ext (set_epoch (epoch self + 1) self) self
             (epoch self + 1) (epoch self + 1)) in Hg by reflexivity.
  rewrite Hit in Hg. cbv zeta in Hg. rewrite Hg.
  rewrite (next_n_spec k _ _ (CountingIterator.__init__ it))
    by (try apply lookup_insert_eq; simpl; lia).
  unfold state_dict, iterations_in_epoch, bind, count_of.
  cbn [_cur_epoch_itr set_cur].
  erewrite on_obj_at by apply lookup_insert_eq.
  cbn [fst snd ret CountingIterator.count CountingIterator.__init__
       epoch set_cur set_epoch].
  unfold ret.
  set (sd := <[k_epoch := VInt (epoch self + 1)]>
             (<[k_iterations_in_epoch := VInt (0 + Z.of_nat k)]> ∅)).
  destruct keys_distinct as (K1 & K2 & K3).
  assert (He : sd !! k_epoch = Some (VInt (epoch self + 1)))
    by apply lookup_insert_eq.
  assert (Hp : sd !! k_iterations_in_epoch = Some (VInt (0 + Z.of_nat k))).
  { unfold sd. rewrite lookup_insert_ne by exact K1. apply lookup_insert_eq. }
  assert (Hs : sd !! k_shuffle = None).
  { unfold sd. rewrite !lookup_insert_ne by assumption. apply lookup_empty. }
  set (again := __init__ _ _ _ _ _ _).
  assert (Hit2 : epoch_iterable again (as_int (VInt (epoch self + 1)))
                   (truthy (default (VBool true) (sd !! k_shuffle))) = Ok it).
  { rewrite Hs. cbn [default from_option id truthy as_int]. rewrite <- Hit.
    apply epoch_iterable_ext; reflexivity. }
  rewrite (load_state_dict_spec again sd _ it w_new He Hit2).
  rewrite Hp. cbn [default from_option id as_int].
  destruct (0 <? 0 + Z.of_nat k) eqn:E1; [| apply Z.ltb_ge in E1; lia].
  cbv zeta.
  rewrite (epoch_iterable_len self _ _ it Hit).
  destruct (0 + Z.of_nat k <? len (it_items it)) eqn:E2;
    [| apply Z.ltb_ge in E2; unfold len in E2; lia].
  unfold next_epoch_itr. cbn [_next_epoch_itr set_next].
  erewrite rest_spec by apply lookup_insert_eq.
  f_equal.
  destruct (CountingFacts.consume_spec (Z.to_nat (0 + Z.of_nat k))
              (CountingIterator.__init__ it)) as (_ & -> & _).
  cbn [CountingIterator.itr CountingIterator.__init__].
  f_equal. lia.
Qed.
End Resume.



Lemma resume_yields_remaining_witness :
  resumed_run example_iterator true 1 empty_world empty_world false
  = Ok (skipn 1 [[2]; [0]; [1]]).
Proof.
  apply (resume_yields_remaining (R := rotating_random) example_iterator 1
           [[2]; [0]; [1]] false empty_world empty_world).
  - reflexivity.
  - reflexivity.
  - simpl. lia.
Defined.

(** C3 as stated fails at [k = 0]: the checkpoint then holds no progress,
    no lookahead is stored, and the resumed iterator moves on to the
    following epoch, whose order is another one. *)
Lemma resume_at_zero_counterexample :
  uninterrupted_run example_iterator true empty_world = Ok [[2]; [0]; [1]] /\
  (0 < length [[2]; [0]; [1]])%nat /\
  resumed_run example_iterator true 0 empty_world empty_world true
  = Ok [[0]; [1]; [2]] /\
  [[0]; [1]; [2]] <> skipn 0 [[2]; [0]; [1]].
Proof.
  split; [reflexivity |]. split; [simpl; lia |]. split; [reflexivity |].
  discriminate.
Qed.

(** The checkpoint does not keep the shuffle flag, and a load that stores a
    lookahead always shuffles: an epoch begun without shuffling is resumed
    in the shuffled order. *)
Lemma resume_forgets_shuffle_flag :
  uninterrupted_run example_iterator false empty_world = Ok [[0]; [1]; [2]] /\
  resumed_run example_iterator false 1 empty_world empty_world false
  = Ok [[0]; [1]].
Proof. split; reflexivity. Qed.

End EpochFacts.

(** * Further properties *)

(** ** batch_by_size, beyond the limits' claims *)

Module MoreBatchFacts.
Import DataUtils.
Import BatchFacts.

Lemma len_slice_from {A : Type} (l : list A) (i : Z) :
  0 <= i <= len l -> len (slice_from l i) = len l - i.
Proof.
  intros Hi. unfold slice_from, slice_bound, len in *.
  rewrite length_skipn.
  destruct (i <? 0) eqn:E; [apply Z.ltb_lt in E; lia |].
  lia.
Qed.

Section Loop.
Variable num_tokens_fn : Z -> Z.
Variables max_tokens max_sentences : option Z.
Variable bsz_mult : Z.

Local Abbreviation loop :=
  (batch_loop num_tokens_fn max_tokens max_sentences bsz_mult).

Lemma batch_loop_nonempty indices :
  1 <= bsz_mult ->
  forall batch sample_len sample_lens,
    Forall (fun b : list Z => b <> [])
           (yielded (loop indices batch sample_len sample_lens)).
Proof.
  intros Hm. induction indices as [| idx rest IH]; intros batch sl sls.
  - simpl. destruct (0 <? len batch) eqn:E; simpl; [| constructor].
    apply Z.ltb_lt in E. constructor; [| constructor].
    intros ->. unfold len in E. simpl in E. lia.
  - cbn [batch_loop]. cbv zeta.
    destruct (is_batch_full _ _ batch _) eqn:Hfull; [| apply IH].
    apply full_nonempty in Hfull.
    destruct (bsz_mult =? 0) eqn:E; [apply Z.eqb_eq in E; lia |].
    cbn [yielded]. constructor; [| apply IH].
    destruct (mod_len_of_spec bsz_mult batch Hm Hfull) as [Hrange _].
    intros Hnil.
    pose proof (len_slice_to batch (mod_len_of bsz_mult batch) ltac:(lia)) as Hl.
    rewrite Hnil in Hl. unfold len in Hl at 1. simpl in Hl. lia.
Qed.
End Loop.

Section Sentences.
Variable num_tokens_fn : Z -> Z.
Variable max_tokens : option Z.
Variables max_sentences bsz_mult : Z.
Hypothesis Hm : 1 <= bsz_mult.
Hypothesis Hs : 1 <= max_sentences.

Local Abbreviation loop_s :=
  (batch_loop num_tokens_fn max_tokens (Some max_sentences) bsz_mult).

Lemma batch_loop_sentences indices :
  forall batch sample_len sample_lens,
    len batch <= max_sentences ->
    Forall (fun b : list Z => len b <= max_sentences)
           (yielded (loop_s indices batch sample_len sample_lens)).
Proof.
  induction indices as [| idx rest IH]; intros batch sl sls Hb.
  - simpl. destruct (0 <? len batch); simpl; repeat constructor. exact Hb.
  - cbn [batch_loop]. cbv zeta.
    pose proof (len_nonneg batch) as Hnn.
    destruct (is_batch_full _ _ batch _) eqn:Hfull.
    + apply full_nonempty in Hfull.
      destruct (bsz_mult =? 0) eqn:E; [apply Z.eqb_eq in E; lia |].
      destruct (mod_len_of_spec bsz_mult batch Hm Hfull) as [Hrange _].
      cbn [yielded]. constructor.
      * rewrite len_slice_to by lia. lia.
      * apply IH. rewrite len_app, len_slice_from by lia.
        change (len [idx]) with 1. lia.
    + apply IH. rewrite len_app. change (len [idx]) with 1.
      unfold is_batch_full in Hfull.
      destruct (len batch =? 0) eqn:E0; [apply Z.eqb_eq in E0; lia |].
      cbn [eq_limit] in Hfull.
      destruct (len batch =? max_sentences) eqn:E1; [discriminate |].
      apply Z.eqb_neq in E1. lia.
Qed.
End Sentences.

Section NoLimit.
Variable num_tokens_fn : Z -> Z.
Variable bsz_mult : Z.

Lemma batch_loop_no_limit indices :
  forall batch sample_len sample_lens,
    batch_loop num_tokens_fn None None bsz_mult indices batch sample_len
               sample_lens
    = match batch ++ indices with
      | [] => GStop
      | _ :: _ => GYield (batch ++ indices) GStop
      end.
Proof.
  induction indices as [| idx rest IH]; intros batch sl sls.
  - simpl. rewrite app_nil_r. destruct batch; reflexivity.
  - cbn [batch_loop]. cbv zeta. unfold is_batch_full. cbn [eq_limit gt_limit].
    replace (if len batch =? 0 then false else false) with false
      by (now destruct (len batch =? 0)).
    rewrite IH, <- app_assoc. reflexivity.
Qed.
End NoLimit.

Section ZeroMultiple.
Variable num_tokens_fn : Z -> Z.
Variables max_tokens max_sentences : option Z.

Lemma batch_loop_zero_multiple indices :
  forall batch sample_len sample_lens,
    let g := batch_loop num_tokens_fn max_tokens max_sentences 0 indices batch
                        sample_len sample_lens in
    (raised g = Some ZeroDivisionError /\ yielded g = []) \/
    (raised g = None /\
     yielded g = match batch ++ indices with
                 | [] => []
                 | _ :: _ => [batch ++ indices]
                 end).
Proof.
  induction indices as [| idx rest IH]; intros batch sl sls.
  - right. simpl. rewrite app_nil_r. destruct batch; simpl; now split.
  - cbn [batch_loop]. cbv zeta.
    destruct (is_batch_full _ _ batch _).
    + left. now split.
    + match goal with
      | |- context [batch_loop _ _ _ _ rest ?b ?s ?ss] =>
          destruct (IH b s ss) as [IH' | IH']
      end; [left; exact IH' | right].
      rewrite <- app_assoc in IH'. exact IH'.
Qed.
End ZeroMultiple.

(** X1.  The batches are consecutive runs of the input, in the input's
    order: for every non-zero [required_batch_size_multiple] the generator
    ends normally and the batches, written one after the other, are the
    input list itself. *)
Theorem batches_in_input_order
        (num_tokens_fn : Z -> Z) (max_tokens max_sentences : option Z)
        (required_batch_size_multiple : Z) (indices : list Z) :
  required_batch_size_multiple <> 0 ->
  raised (batch_by_size num_tokens_fn max_tokens max_sentences
                        required_batch_size_multiple indices) = None /\
  concat (yielded (batch_by_size num_tokens_fn max_tokens max_sentences
                                 required_batch_size_multiple indices))
  = indices.
Proof.
  intros Hm. unfold batch_by_size.
  apply (batch_loop_concat num_tokens_fn max_tokens max_sentences
           required_batch_size_multiple indices Hm [] 0 []).
Qed.

Lemma batches_in_input_order_witness :
  -2 <> 0 /\
  raised (batch_by_size size_one_big (Some 6) (Some 2) (-2) (range_list 5))
  = None /\
  concat (yielded (batch_by_size size_one_big (Some 6) (Some 2) (-2)
                                 (range_list 5)))
  = range_list 5.
Proof.
  split; [lia |].
  apply (batches_in_input_order size_one_big (Some 6) (Some 2) (-2)). lia.
Defined.

(** X2.  No batch is ever empty: for every multiple [>= 1], every batch
    [batch_by_size] yields holds at least one index. *)
Theorem no_empty_batch
        (num_tokens_fn : Z -> Z) (max_tokens max_sentences : option Z)
        (required_batch_size_multiple : Z) (indices : list Z) :
  1 <= required_batch_size_multiple ->
  Forall (fun b : list Z => b <> [])
         (yielded (batch_by_size num_tokens_fn max_tokens max_sentences
                                 required_batch_size_multiple indices)).
Proof. intros Hm. unfold batch_by_size. now apply batch_loop_nonempty. Qed.

Lemma no_empty_batch_witness :
  1 <= 8 /\
  Forall (fun b : list Z => b <> [])
         (yielded (batch_by_size (fun _ => 5) (Some 6) None 8 [0; 1])).
Proof.
  split; [lia |]. apply (no_empty_batch (fun _ => 5) (Some 6) None 8). lia.
Defined.

(** X3.  The sentence limit is kept by every batch, the last one and the
    ones rebuilt from a carried remainder included: with
    [max_sentences >= 1] and a multiple [>= 1], no batch holds more than
    [max_sentences] indices. *)
Theorem sentence_limit_kept
        (num_tokens_fn : Z -> Z) (max_tokens : option Z)
        (max_sentences required_batch_size_multiple : Z) (indices : list Z) :
  1 <= required_batch_size_multiple ->
  1 <= max_sentences ->
  Forall (fun b : list Z => len b <= max_sentences)
         (yielded (batch_by_size num_tokens_fn max_tokens (Some max_sentences)
                                 required_batch_size_multiple indices)).
Proof.
  intros Hm Hs. unfold batch_by_size.
  apply batch_loop_sentences; [exact Hm | exact Hs |].
  unfold len. simpl. lia.
Qed.

Lemma sentence_limit_kept_witness :
  1 <= 2 /\ 1 <= 3 /\
  Forall (fun b : list Z => len b <= 3)
         (yielded (batch_by_size size_one_big (Some 6) (Some 3) 2
                                 (range_list 5))).
Proof.
  split; [lia |]. split; [lia |].
  apply (sentence_limit_kept size_one_big (Some 6) 3 2); lia.
Defined.

(** X4.  With [required_batch_size_multiple = 1] nothing is carried over,
    and every batch, the last one included, keeps to [max_sentences] and to
    [max_tokens], or is a single example that is larger than [max_tokens]
    by itself. *)
Theorem budget_kept_without_carry
        (num_tokens_fn : Z -> Z) (max_tokens max_sentences : Z)
        (indices : list Z) :
  1 <= max_sentences ->
  Forall (fun b => respects_budget num_tokens_fn max_tokens max_sentences b \/
                   singleton_overflow num_tokens_fn max_tokens b)
         (yielded (batch_by_size num_tokens_fn (Some max_tokens)
                                 (Some max_sentences) 1 indices)).
Proof.
  intros Hs. unfold batch_by_size. apply batch_loop_budget; [exact Hs |].
  unfold candidate_ok, len. simpl. repeat split; try lia; intros x [].
Qed.

Lemma budget_kept_without_carry_witness :
  1 <= 10 /\
  Forall (fun b => respects_budget size_one_big 6 10 b \/
                   singleton_overflow size_one_big 6 b)
         (yielded (batch_by_size size_one_big (Some 6) (Some 10) 1
                                 (range_list 5))).
Proof.
  split; [lia |]. apply (budget_kept_without_carry size_one_big 6 10). lia.
Defined.

(** X5.  Without limits ([max_tokens] and [max_sentences] both [None]) no
    batch is ever full: all the indices come out as one batch, and an empty
    input yields nothing.  The multiple is never looked at, so this holds
    for every value of it, zero included. *)
Theorem no_limits_one_batch
        (num_tokens_fn : Z -> Z) (required_batch_size_multiple : Z)
        (indices : list Z) :
  batch_by_size num_tokens_fn None None required_batch_size_multiple indices
  = match indices with
    | [] => GStop
    | _ :: _ => GYield indices GStop
    end.
Proof. unfold batch_by_size. now rewrite batch_loop_no_limit. Qed.

(** X6.  A multiple of zero gives all or nothing: the division raises
    [ZeroDivisionError] the first time a batch is full, before anything has
    been yielded; a run that never fills a batch ends normally with the
    whole input as its only batch. *)
Theorem zero_multiple_all_or_nothing
        (num_tokens_fn : Z -> Z) (max_tokens max_sentences : option Z)
        (indices : list Z) :
  let g := batch_by_size num_tokens_fn max_tokens max_sentences 0 indices in
  (raised g = Some ZeroDivisionError /\ yielded g = []) \/
  (raised g = None /\
   yielded g = match indices with [] => [] | _ :: _ => [indices] end).
Proof.
  unfold batch_by_size.
  apply (batch_loop_zero_multiple num_tokens_fn max_tokens max_sentences
           indices [] 0 []).
Qed.

End MoreBatchFacts.

(** ** CountingIterator and ShardedIterator, further *)

Module MoreIteratorFacts.
Import Iterators.

Section Counting.
Context {A : Type}.
Import CountingIterator.

(** After any calls, the count is the position in the sequence: the items
    left are the ones from that position on. *)
Lemma after_calls_position (l : list A) (cs : list call) :
  let self := after_calls (of_list l) cs in
  exists k : nat,
    count self = Z.of_nat k /\ (k <= length l)%nat /\
    itr self = skipn k l /\ iterable_ self = of_list l.
Proof.
  unfold after_calls.
  assert (G : forall self,
             (exists k : nat,
                 count self = Z.of_nat k /\ (k <= length l)%nat /\
                 itr self = skipn k l /\ iterable_ self = of_list l) ->
             exists k : nat,
               count (fold_left do_call cs self) = Z.of_nat k /\
               (k <= length l)%nat /\
               itr (fold_left do_call cs self) = skipn k l /\
               iterable_ (fold_left do_call cs self) = of_list l).
  { induction cs as [| c cs IH]; intros self Hself; [exact Hself |].
    simpl. apply IH. destruct Hself as (k & Hc & Hk & Hi & Hit).
    assert (Hcons : forall n,
               exists k' : nat,
                 count (consume n self) = Z.of_nat k' /\
                 (k' <= length l)%nat /\
                 itr (consume n self) = skipn k' l /\
                 iterable_ (consume n self) = of_list l).
    { intros n.
      destruct (CountingFacts.consume_spec n self) as (H1 & H2 & H3).
      exists (k + Nat.min n (length (itr self)))%nat.
      rewrite H1, H2, H3, Hc, Hi, length_skipn, skipn_skipn.
      repeat split; try lia; try assumption.
      destruct (Nat.le_ge_cases n (length l - k)) as [Hle | Hge].
      - rewrite Nat.min_l by lia. f_equal. lia.
      - rewrite Nat.min_r by lia.
        rewrite !skipn_all2 by lia. reflexivity. }
    destruct c as [| n]; simpl.
    - specialize (Hcons 1%nat). cbn [consume] in Hcons.
      unfold __next__. destruct (gen_next self) as [[x |] self'];
        exact Hcons.
    - unfold skip. destruct ((n <? 0) || (sys_maxsize <? n)); simpl;
        [| apply Hcons].
      exists k. repeat split; assumption. }
  apply G. exists 0%nat. repeat split; simpl; lia.
Qed.

(** X7.  [has_next()] tells what [next()] will do.  On a counting iterator
    over a list, after any calls: when [has_next()] is true, [next()]
    returns the item at position [count] of the list and adds one to
    [count]; when it is false, [next()] raises [StopIteration] and changes
    nothing. *)
Theorem has_next_decides_next (l : list A) (cs : list call) :
  let self := after_calls (of_list l) cs in
  if has_next self then
    exists x,
      nth_error l (Z.to_nat (count self)) = Some x /\
      __next__ self
      = (Ok x, Make (of_list l) (count self + 1)
                    (skipn (S (Z.to_nat (count self))) l))
  else __next__ self = (Raise StopIteration, self).
Proof.
  intros self.
  destruct (after_calls_position l cs) as (k & Hc & Hk & Hi & Hit).
  fold self in Hc, Hi, Hit.
  unfold has_next, __len__, __next__, gen_next. rewrite Hit, Hc, Hi.
  cbn [of_list it_len]. rewrite Nat2Z.id. unfold len.
  destruct (Z.of_nat k <? Z.of_nat (length l)) eqn:E.
  - apply Z.ltb_lt in E.
    destruct (skipn k l) as [| x r] eqn:Hs.
    + apply (f_equal (@length A)) in Hs. rewrite length_skipn in Hs.
      simpl in Hs. lia.
    + exists x. split.
      * rewrite <- (firstn_skipn k l) at 1. rewrite Hs.
        rewrite nth_error_app2 by (rewrite length_firstn; lia).
        rewrite length_firstn. replace (k - Nat.min k (length l))%nat with 0%nat by lia.
        reflexivity.
      * f_equal. f_equal.
        replace (S k) with (1 + k)%nat by lia.
        rewrite <- skipn_skipn, Hs. reflexivity.
  - apply Z.ltb_ge in E. rewrite skipn_all2 by lia. reflexivity.
Qed.

(** X8.  Skips add up: for [a, b >= 0] with [a + b <= sys.maxsize],
    skipping [a] and then [b] items returns both times and leaves the
    iterator exactly as skipping [a + b] at once, also when the end is
    reached on the way. *)
Theorem skip_skip (self : CountingIterator.t A) (a b : Z) :
  0 <= a -> 0 <= b -> a + b <= sys_maxsize ->
  fst (skip self a) = Ok tt /\
  skip (snd (skip self a)) b = skip self (a + b) /\
  fst (skip self (a + b)) = Ok tt.
Proof.
  intros Ha Hb Hab.
  rewrite !CountingFacts.skip_in_range by lia.
  cbn [fst snd]. split; [reflexivity |]. split; [| reflexivity].
  f_equal.
  destruct (CountingFacts.consume_spec (Z.to_nat a) self) as (H1 & H2 & H3).
  destruct (CountingFacts.consume_spec (Z.to_nat b)
              (consume (Z.to_nat a) self)) as (K1 & K2 & K3).
  destruct (CountingFacts.consume_spec (Z.to_nat (a + b)) self)
    as (L1 & L2 & L3).
  destruct (consume (Z.to_nat b) (consume (Z.to_nat a) self)) as [i1 c1 r1].
  destruct (consume (Z.to_nat (a + b)) self) as [i2 c2 r2].
  cbn [iterable_ count itr] in *.
  rewrite K1, K2, K3, H1, H2, H3, L1, L2, L3.
  rewrite skipn_skipn, length_skipn.
  f_equal; [lia |]. f_equal. lia.
Qed.
End Counting.

Lemma skip_skip_witness :
  0 <= 2 /\ 0 <= 5 /\ 2 + 5 <= sys_maxsize /\
  let self := CountingIterator.__init__ (of_list [10; 20; 30; 40]) in
  fst (CountingIterator.skip self 2) = Ok tt /\
  CountingIterator.skip (snd (CountingIterator.skip self 2)) 5
  = CountingIterator.skip self (2 + 5) /\
  fst (CountingIterator.skip self (2 + 5)) = Ok tt.
Proof.
  split; [lia |]. split; [lia |]. split; [vm_compute; discriminate |].
  apply (skip_skip (CountingIterator.__init__ (of_list [10; 20; 30; 40])) 2 5);
    [lia | lia | vm_compute; discriminate].
Defined.

Section Sharded.
Context {A : Type}.

Lemma ceil_div_tight (L n : Z) :
  0 < L -> 1 <= n -> (ceil_div L n - 1) * n < L.
Proof.
  intros HL Hn. rewrite <- ShardedFacts.sharded_len_ceil by lia.
  pose proof (Z.div_mod L n ltac:(lia)) as Hdm.
  pose proof (Z.mod_pos_bound L n ltac:(lia)) as Hb.
  destruct (0 <? L mod n) eqn:E.
  - apply Z.ltb_lt in E. nia.
  - apply Z.ltb_ge in E. nia.
Qed.

(** X9.  On a sequence of at most [sys.maxsize] items, the constructor
    raises [ValueError] exactly when the shard descriptor is outside
    [0 <= shard_id < num_shards] (the check of the constructor) or
    [num_shards] is above [sys.maxsize] (the check of [itertools.islice]);
    otherwise it returns.  In particular [num_shards <= 0] is always
    refused, so the division by [num_shards] is never reached with zero. *)
Theorem sharded_init_error_iff (iterable : list A)
        (num_shards shard_id : Z) (fill_value : A) :
  len iterable <= sys_maxsize ->
  (ShardedIterator.__init__ iterable num_shards shard_id fill_value
   = Raise ValueError
   <-> ~ 0 <= shard_id < num_shards \/ sys_maxsize < num_shards) /\
  ((exists self,
       ShardedIterator.__init__ iterable num_shards shard_id fill_value
       = Ok self)
   <-> 0 <= shard_id < num_shards /\ num_shards <= sys_maxsize).
Proof.
  intros HL. split; split.
  - intros Hr.
    destruct (Z_le_gt_dec num_shards sys_maxsize) as [Hle | Hgt];
      [| right; lia].
    left. intros Hv.
    destruct (ShardedFacts.sharded_init_spec iterable num_shards shard_id
                fill_value Hv Hle HL) as (self & Hok & _).
    congruence.
  - intros [Hbad | Hbig].
    + now apply ShardedFacts.sharded_init_invalid.
    + destruct (Z_lt_ge_dec shard_id 0) as [Hneg | Hpos];
        [apply ShardedFacts.sharded_init_invalid; lia |].
      destruct (Z_lt_ge_dec shard_id num_shards) as [Hlt | Hge];
        [| apply ShardedFacts.sharded_init_invalid; lia].
      apply ShardedFacts.sharded_init_too_many_shards; lia.
  - intros [self Hok].
    apply ShardedFacts.sharded_init_ok_bounds in Hok. tauto.
  - intros [Hv Hle].
    destruct (ShardedFacts.sharded_init_spec iterable num_shards shard_id
                fill_value Hv Hle HL) as (self & Hok & _).
    now exists self.
Qed.

(** X10.  The shards together hold the whole sequence, each element once:
    for [1 <= num_shards <= sys.maxsize] and a sequence of at most
    [sys.maxsize] items, the element at position [i] is item
    [i // num_shards] of shard [i % num_shards]. *)
Theorem shards_cover_sequence (iterable : list A) (num_shards : Z)
        (fill_value : A) (i : nat) :
  1 <= num_shards <= sys_maxsize ->
  len iterable <= sys_maxsize ->
  (i < length iterable)%nat ->
  exists self,
    ShardedIterator.__init__ iterable num_shards (Z.of_nat i mod num_shards)
                             fill_value = Ok self /\
    Z.of_nat i / num_shards < ShardedIterator.__len__ self /\
    nth (Z.to_nat (Z.of_nat i / num_shards)) (ShardedIterator.items self)
        fill_value
    = nth i iterable fill_value.
Proof.
  intros [Hn Hmax] HLmax Hi.
  pose proof (Z.mod_pos_bound (Z.of_nat i) num_shards ltac:(lia)) as Hb.
  pose proof (Z.div_mod (Z.of_nat i) num_shards ltac:(lia)) as Hdm.
  assert (Hq : 0 <= Z.of_nat i / num_shards) by (apply Z.div_pos; lia).
  destruct (ShardedFacts.sharded_init_spec iterable num_shards
              (Z.of_nat i mod num_shards) fill_value Hb Hmax HLmax)
    as (self & Hok & Hlen & _ & Hnth).
  exists self. split; [exact Hok |].
  destruct (ShardedFacts.ceil_div_bounds (len iterable) num_shards
              (BatchFacts.len_nonneg iterable) Hn) as [_ Hc].
  assert (Hlt : Z.of_nat i / num_shards < ceil_div (len iterable) num_shards).
  { unfold len in *. nia. }
  split; [rewrite Hlen; exact Hlt |].
  rewrite Hnth by (rewrite Z2Nat.id by lia; exact Hlt).
  f_equal. rewrite Z2Nat.id by lia.
  replace (Z.of_nat i mod num_shards + Z.of_nat i / num_shards * num_shards)
    with (Z.of_nat i) by lia.
  apply Nat2Z.id.
Qed.

(** X11.  Padding is at most the last item of a shard: on a sequence of
    at most [sys.maxsize] items, every item of a shard before its last one
    is an element of the sequence. *)
Theorem only_last_item_is_padding (iterable : list A)
        (num_shards shard_id : Z) (fill_value : A) (j : nat) :
  len iterable <= sys_maxsize ->
  0 <= shard_id < num_shards ->
  Z.of_nat j + 1 < ceil_div (len iterable) num_shards ->
  exists self x,
    ShardedIterator.__init__ iterable num_shards shard_id fill_value = Ok self /\
    nth_error iterable (Z.to_nat (shard_id + Z.of_nat j * num_shards)) = Some x /\
    nth_error (ShardedIterator.items self) j = Some x.
Proof.
  intros HLmax Hs Hj.
  pose proof (BatchFacts.len_nonneg iterable) as HL.
  assert (HLpos : 0 < len iterable).
  { destruct (Z.eq_dec (len iterable) 0) as [E | E]; [| lia].
    rewrite E in Hj. unfold ceil_div in Hj.
    rewrite Z.div_small in Hj by lia. lia. }
  pose proof (ceil_div_tight (len iterable) num_shards HLpos ltac:(lia)) as Ht.
  assert (Hmax : num_shards <= sys_maxsize) by nia.
  destruct (ShardedFacts.sharded_init_spec iterable num_shards shard_id
              fill_value Hs Hmax HLmax) as (self & Hok & _ & Hlen & Hnth).
  assert (Hpos : shard_id + Z.of_nat j * num_shards < len iterable) by nia.
  assert (Hnn : 0 <= Z.of_nat j * num_shards) by nia.
  assert (Hin : (Z.to_nat (shard_id + Z.of_nat j * num_shards)
                 < length iterable)%nat) by (unfold len in Hpos; lia).
  assert (Hjn : (j < length (ShardedIterator.items self))%nat)
    by (unfold len in *; lia).
  exists self, (nth (Z.to_nat (shard_id + Z.of_nat j * num_shards)) iterable
                    fill_value).
  split; [exact Hok |]. split.
  - apply nth_error_nth'. exact Hin.
  - rewrite <- Hnth by lia. apply nth_error_nth'. exact Hjn.
Qed.
End Sharded.

Lemma shards_cover_sequence_witness :
  1 <= 3 <= sys_maxsize /\ len (range_list 7) <= sys_maxsize /\
  (5 < length (range_list 7))%nat /\
  exists self,
    ShardedIterator.__init__ (range_list 7) 3 (Z.of_nat 5 mod 3) (-1) = Ok self /\
    Z.of_nat 5 / 3 < ShardedIterator.__len__ self /\
    nth (Z.to_nat (Z.of_nat 5 / 3)) (ShardedIterator.items self) (-1)
    = nth 5 (range_list 7) (-1).
Proof.
  split; [split; [lia | vm_compute; discriminate] |].
  split; [vm_compute; discriminate |]. split; [simpl; lia |].
  apply (shards_cover_sequence (range_list 7) 3 (-1) 5);
    [split; [lia | vm_compute; discriminate]
    | vm_compute; discriminate | simpl; lia].
Defined.

Lemma sharded_init_error_iff_witness :
  len (range_list 7) <= sys_maxsize /\
  (ShardedIterator.__init__ (range_list 7) (2 ^ 63) 1 (-1) = Raise ValueError
   <-> ~ 0 <= 1 < 2 ^ 63 \/ sys_maxsize < 2 ^ 63) /\
  ((exists self,
       ShardedIterator.__init__ (range_list 7) (2 ^ 63) 1 (-1) = Ok self)
   <-> 0 <= 1 < 2 ^ 63 /\ 2 ^ 63 <= sys_maxsize).
Proof.
  split; [vm_compute; discriminate |].
  apply (sharded_init_error_iff (range_list 7) (2 ^ 63) 1 (-1)).
  vm_compute; discriminate.
Defined.

Lemma only_last_item_is_padding_witness :
  len (range_list 7) <= sys_maxsize /\
  0 <= 2 < 3 /\ Z.of_nat 1 + 1 < ceil_div (len (range_list 7)) 3 /\
  exists self x,
    ShardedIterator.__init__ (range_list 7) 3 2 (-1) = Ok self /\
    nth_error (range_list 7) (Z.to_nat (2 + Z.of_nat 1 * 3)) = Some x /\
    nth_error (ShardedIterator.items self) 1 = Some x.
Proof.
  split; [vm_compute; discriminate |].
  split; [lia |]. split; [vm_compute; reflexivity |].
  apply (only_last_item_is_padding (range_list 7) 3 2 (-1) 1);
    [vm_compute; discriminate | lia | vm_compute; reflexivity].
Defined.

End MoreIteratorFacts.

(** ** EpochBatchIterator, further *)

Module MoreEpochFacts.
Import DataUtils.
Import Iterators.
Import EpochBatchIterator.
Import Clients.
Import EpochFacts.

Lemma rotate_shuffle_permutation (g : Z) (l : list (list Z)) :
  Permutation (fst (rotate_shuffle g l)) l.
Proof.
  unfold rotate_shuffle. cbn [fst].
  rewrite Permutation_app_comm. now rewrite firstn_skipn.
Qed.

Section Progress.
Context {R : NumpyRandom} {sample payload : Type}.
Implicit Types (self : EpochBatchIterator.t sample payload)
         (w : world (gmap loc (CountingIterator.t payload))).

(** X12.  The iterator handed out is the one the [EpochBatchIterator]
    watches: after an epoch is begun (no lookahead pending) and the client
    has read [k] of its batches, [iterations_in_epoch] is [k], and
    [end_of_epoch()] is true exactly when [k] is the number of batches of
    the epoch. *)
Theorem progress_is_what_was_read self (shuffle : bool) (k : nat)
        (all : list payload) w :
  _next_epoch_itr self = None ->
  uninterrupted_run self shuffle w = Ok all ->
  (k <= length all)%nat ->
  progress_after self shuffle k w = Ok (Z.of_nat k, (k =? length all)%nat).
Proof.
  intros Hn Hrun Hk.
  rewrite uninterrupted_run_spec in Hrun by exact Hn.
  destruct (epoch_iterable self (epoch self + 1) shuffle) as [it | ex] eqn:Hit;
    [| discriminate].
  injection Hrun as <-.
  unfold progress_after, next_epoch_itr. rewrite Hn. cbn [epoch set_epoch].
  pose proof (get_iterator_spec (set_epoch (epoch self + 1) self)
                (epoch self + 1) shuffle w) as Hg.
  rewrite (epoch_iterable_ext (set_epoch (epoch self + 1) self) self
             (epoch self + 1) (epoch self + 1)) in Hg by reflexivity.
  rewrite Hit in Hg. cbv zeta in Hg. rewrite Hg.
  rewrite (next_n_spec k _ _ (CountingIterator.__init__ it))
    by (try apply lookup_insert_eq; simpl; lia).
  unfold iterations_in_epoch, end_of_epoch, count_of.
  cbn [_cur_epoch_itr set_cur].
  erewrite on_obj_at by apply lookup_insert_eq.
  cbn [fst snd heap rng].
  erewrite on_obj_at by apply lookup_insert_eq.
  cbn [fst snd CountingIterator.count CountingIterator.__init__
       CountingIterator.has_next CountingIterator.__len__
       CountingIterator.iterable_].
  unfold CountingIterator.has_next, CountingIterator.__len__.
  cbn [CountingIterator.count CountingIterator.iterable_].
  rewrite (epoch_iterable_len self _ _ it Hit). unfold len.
  rewrite Z.add_0_l. do 2 f_equal.
  destruct (Nat.eqb_spec k (length (it_items it))) as [-> | Hne].
  - apply negb_true_iff. apply Z.ltb_ge. lia.
  - apply negb_false_iff. apply Z.ltb_lt. lia.
Qed.

(** X13.  A checkpoint taken at the end of an epoch resumes with the
    following epoch: when all the batches of an epoch (begun with
    [shuffle = True]) have been read, saving, rebuilding, loading and
    calling [next_epoch_itr] gives the same batches as beginning the epoch
    after it directly. *)
Theorem resume_at_end_begins_next_epoch self (all : list payload)
        (shuffle_new : bool) w
        (w_new : world (gmap loc (CountingIterator.t payload))) :
  _next_epoch_itr self = None ->
  uninterrupted_run self true w = Ok all ->
  resumed_run self true (length all) w w_new shuffle_new
  = uninterrupted_run (set_epoch (epoch self + 1) self) shuffle_new w_new.
Proof.
  intros Hn Hrun.
  rewrite (uninterrupted_run_spec (set_epoch (epoch self + 1) self))
    by exact Hn.
  rewrite uninterrupted_run_spec in Hrun by exact Hn.
  destruct (epoch_iterable self (epoch self + 1) true) as [it | ex] eqn:Hit;
    [| discriminate].
  injection Hrun as <-.
  unfold resumed_run, next_epoch_itr at 1. rewrite Hn. cbn [epoch set_epoch].
  pose proof (get_iterator_spec (set_epoch (epoch self + 1) self)
                (epoch self + 1) true w) as Hg.
  rewrite (epoch_iterable_ext (set_epoch (epoch self + 1) self) self
             (epoch self + 1) (epoch self + 1)) in Hg by reflexivity.
  rewrite Hit in Hg. cbv zeta in Hg. rewrite Hg.
  rewrite (next_n_spec (length (it_items it)) _ _ (CountingIterator.__init__ it))
    by (try apply lookup_insert_eq; simpl; lia).
  unfold state_dict, iterations_in_epoch, bind, count_of.
  cbn [_cur_epoch_itr set_cur].
  erewrite on_obj_at by apply lookup_insert_eq.
  cbn [fst snd ret CountingIterator.count CountingIterator.__init__
       epoch set_cur set_epoch].
  unfold ret.
  set (k := length (it_items it)).
  set (sd := <[k_epoch := VInt (epoch self + 1)]>
             (<[k_iterations_in_epoch := VInt (0 + Z.of_nat k)]> ∅)).
  destruct keys_distinct as (K1 & K2 & K3).
  assert (He : sd !! k_epoch = Some (VInt (epoch self + 1)))
    by apply lookup_insert_eq.
  assert (Hp : sd !! k_iterations_in_epoch = Some (VInt (0 + Z.of_nat k))).
  { unfold sd. rewrite lookup_insert_ne by exact K1. apply lookup_insert_eq. }
  assert (Hs : sd !! k_shuffle = None).
  { unfold sd. rewrite !lookup_insert_ne by assumption. apply lookup_empty. }
  set (again := __init__ _ _ _ _ _ _).
  assert (Hit2 : epoch_iterable again (as_int (VInt (epoch self + 1)))
                   (truthy (default (VBool true) (sd !! k_shuffle))) = Ok it).
  { rewrite Hs. cbn [default from_option id truthy as_int]. rewrite <- Hit.
    apply epoch_iterable_ext; reflexivity. }
  rewrite (load_state_dict_spec again sd _ it w_new He Hit2).
  rewrite Hp. cbn [default from_option id as_int].
  rewrite (epoch_iterable_len self _ _ it Hit). fold k.
  assert (Hnolook :
            forall w' : world (gmap loc (CountingIterator.t payload)),
              (let (p, w4) :=
                 next_epoch_itr (set_epoch (epoch self + 1) again)
                                shuffle_new w' in
               let (r, _) := p in
               match r with
               | Ok itr2 => fst (rest itr2 w4)
               | Raise e => Raise e
               end)
              = match epoch_iterable
                        (set_epoch (epoch self + 1) self)
                        (epoch (set_epoch (epoch self + 1) self) + 1)
                        shuffle_new with
                | Ok it0 => Ok (it_items it0)
                | Raise ex => Raise ex
                end).
  { intros w'.
    pose proof (uninterrupted_run_spec (set_epoch (epoch self + 1) again)
                  shuffle_new w' eq_refl) as Hu.
    unfold uninterrupted_run in Hu.
    rewrite (epoch_iterable_ext (set_epoch (epoch self + 1) again)
               (set_epoch (epoch self + 1) self)
               (epoch (set_epoch (epoch self + 1) again) + 1)
               (epoch (set_epoch (epoch self + 1) self) + 1) shuffle_new)
      in Hu by reflexivity.
    rewrite <- Hu.
    destruct (next_epoch_itr _ _ w') as [[[itr2 | e] s2] w4]; reflexivity. }
  destruct (0 <? 0 + Z.of_nat k) eqn:E1.
  - cbv zeta. unfold len.
    destruct (0 + Z.of_nat k <? Z.of_nat (length (it_items it))) eqn:E2;
      [apply Z.ltb_lt in E2; unfold k in E2; lia |].
    apply Hnolook.
  - apply Hnolook.
Qed.

(** X14.  Loading a checkpoint and saving at once.  On an iterator that has
    not begun an epoch, for a checkpoint whose epoch iterator can be
    derived, [state_dict()] right after [load_state_dict(sd)] returns the
    epoch of [sd], and its [iterations_in_epoch] when that lies strictly
    between 0 and the number of batches; any other progress comes back
    as 0. *)
Theorem load_then_save self (sd : gmap string pyval) (e : pyval)
        (it : iterable payload) w :
  _cur_epoch_itr self = None ->
  _next_epoch_itr self = None ->
  sd !! k_epoch = Some e ->
  epoch_iterable self (as_int e)
    (truthy (default (VBool true) (sd !! k_shuffle))) = Ok it ->
  let p := as_int (default (VInt 0) (sd !! k_iterations_in_epoch)) in
  reload_state self sd w
  = Ok (checkpoint (as_int e)
                   (if (0 <? p) && (p <? it_len it) then p else 0)).
Proof.
  intros Hc Hn He Hit p. unfold reload_state.
  rewrite (load_state_dict_spec self sd e it w He Hit). fold p.
  unfold state_dict, iterations_in_epoch, bind, ret, checkpoint.
  destruct (0 <? p) eqn:Hp; cbn [andb].
  - cbv zeta. destruct (p <? it_len it) eqn:Hlt.
    + cbn [_cur_epoch_itr _next_epoch_itr set_next set_epoch epoch].
      rewrite Hc. unfold count_of.
      erewrite on_obj_at by apply lookup_insert_eq.
      cbn [fst snd].
      destruct (CountingFacts.consume_spec (Z.to_nat p)
                  (CountingIterator.__init__ it)) as (_ & _ & ->).
      cbn [CountingIterator.count CountingIterator.itr
           CountingIterator.__init__].
      apply Z.ltb_lt in Hp, Hlt.
      rewrite (epoch_iterable_len self _ _ it Hit) in Hlt. unfold len in Hlt.
      do 4 f_equal. lia.
    + cbn [_cur_epoch_itr _next_epoch_itr set_epoch epoch].
      rewrite Hc, Hn. reflexivity.
  - cbn [_cur_epoch_itr _next_epoch_itr set_epoch epoch].
    rewrite Hc, Hn. reflexivity.
Qed.

(** X15.  Beginning an epoch touches no iterator that exists.  With no
    lookahead pending, [next_epoch_itr] adds one to [epoch] before it
    derives the iterator, so the increment is kept whether the call returns
    or raises.  A call that returns gives a reference that was not in use,
    makes it the current iterator, and leaves every other iterator of the
    store and the global generator as they were.  A call that raises leaves
    the store, the global generator and the current iterator as they were;
    of the object only [epoch] has changed. *)
Theorem next_epoch_itr_frame self (shuffle : bool) w :
  _next_epoch_itr self = None ->
  match next_epoch_itr self shuffle w with
  | (Ok l, self', w') =>
      heap w !! l = None /\
      (forall l', l' <> l -> heap w' !! l' = heap w !! l') /\
      rng w' = rng w /\
      self' = set_cur (Some l) (set_epoch (epoch self + 1) self)
  | (Raise _, self', w') =>
      w' = w /\ self' = set_epoch (epoch self + 1) self
  end.
Proof.
  intros Hn. unfold next_epoch_itr. rewrite Hn. cbn [epoch set_epoch].
  pose proof (get_iterator_spec (set_epoch (epoch self + 1) self)
                (epoch self + 1) shuffle w) as Hg.
  destruct (epoch_iterable _ _ _) as [it | ex].
  - cbv zeta in Hg. rewrite Hg. repeat split.
    + apply not_elem_of_dom. apply is_fresh.
    + intros l' Hl'. cbn [heap]. now rewrite lookup_insert_ne.
  - rewrite Hg. split; reflexivity.
Qed.
End Progress.

Section Shuffled.
Context {R : NumpyRandom} {sample payload : Type}.
Implicit Types (self : EpochBatchIterator.t sample payload).

(** NumPy's shuffle rearranges the list it is given. *)
Hypothesis shuffle_permutes :
  forall g l, Permutation (fst (shuffle_with g l)) l.

Lemma epoch_order_permutation self (e : Z) (shuffle : bool) batches :
  epoch_order self e shuffle = Ok batches ->
  Permutation batches (frozen_batches self).
Proof.
  unfold epoch_order. destruct shuffle.
  - destruct (seed_ok _); [| discriminate]. intros [= <-].
    apply shuffle_permutes.
  - intros [= <-]. reflexivity.
Qed.

(** X16.  All workers stay in step: whatever the epoch, the shuffle flag and
    the shard, the iterator of an epoch reports, and yields, exactly
    [ceil(len(frozen_batches) / num_shards)] batches. *)
Theorem epoch_length_in_step self (e : Z) (shuffle : bool)
        (it : iterable payload) :
  epoch_iterable self e shuffle = Ok it ->
  it_len it = ceil_div (len (frozen_batches self)) (num_shards self) /\
  len (it_items it) = ceil_div (len (frozen_batches self)) (num_shards self).
Proof.
  intros Hit.
  destruct (epoch_iterable_ok self e shuffle it Hit)
    as (batches & sh & Ho & _ & -> & _ & _ & _ & Hl1 & Hl2).
  apply epoch_order_permutation in Ho. apply Permutation_length in Ho.
  unfold DataLoader. cbn [it_len it_items].
  unfold len in *. rewrite length_map, <- Ho. split; assumption.
Qed.

(** X17.  With a single shard an epoch is the whole plan, each batch once:
    the batches the epoch's iterator yields are a rearrangement of the
    collated batches of the frozen plan (and the plan itself, in order,
    without shuffling). *)
Theorem single_shard_epoch_is_plan self (e : Z) (shuffle : bool)
        (it : iterable payload) :
  num_shards self = 1 -> shard_id self = 0 ->
  epoch_iterable self e shuffle = Ok it ->
  Permutation (it_items it)
              (map (fun b => collate_fn self (map (dataset self) b))
                   (frozen_batches self)) /\
  (shuffle = false ->
   it_items it = map (fun b => collate_fn self (map (dataset self) b))
                     (frozen_batches self)).
Proof.
  intros Hn Hs Hit.
  destruct (epoch_iterable_ok self e shuffle it Hit)
    as (batches & sh0 & Ho & Hsh & -> & Hv & Hmax & HL & _).
  rewrite Hn, Hs in Hsh. rewrite Hn in Hmax.
  destruct (ShardedFacts.sharded_init_spec batches 1 0 [] ltac:(lia) Hmax HL)
    as (sh & Hsh' & _ & Hl2 & Hnth).
  rewrite Hsh in Hsh'. injection Hsh' as ->.
  unfold DataLoader. cbn [it_items].
  assert (Hc : ceil_div (len batches) 1 = len batches).
  { unfold ceil_div. rewrite Z.div_1_r. lia. }
  rewrite Hc in Hl2, Hnth.
  assert (Heq : ShardedIterator.items sh = batches).
  { apply (nth_ext _ _ [] []); [unfold len in Hl2; lia |].
    intros j Hj. rewrite Hnth by (unfold len in *; lia).
    f_equal. lia. }
  rewrite Heq. split.
  - apply Permutation_map. eapply epoch_order_permutation. exact Ho.
  - intros ->. unfold epoch_order in Ho. now injection Ho as <-.
Qed.
End Shuffled.

Lemma progress_is_what_was_read_witness :
  progress_after example_iterator true 2 empty_world
  = Ok (Z.of_nat 2, (2 =? length [[2]; [0]; [1]])%nat).
Proof.
  apply (progress_is_what_was_read (R := rotating_random) example_iterator
           true 2 [[2]; [0]; [1]] empty_world).
  - reflexivity.
  - reflexivity.
  - simpl. lia.
Defined.

Lemma resume_at_end_begins_next_epoch_witness :
  resumed_run example_iterator true (length [[2]; [0]; [1]]) empty_world
              empty_world true
  = uninterrupted_run
      (EpochBatchIterator.set_epoch (epoch example_iterator + 1)
                                    example_iterator)
      true empty_world.
Proof.
  apply (resume_at_end_begins_next_epoch (R := rotating_random)
           example_iterator [[2]; [0]; [1]] true empty_world empty_world).
  - reflexivity.
  - reflexivity.
Defined.

Lemma load_then_save_witness :
  reload_state example_iterator (checkpoint 1 2) empty_world
  = Ok (checkpoint 1 2).
Proof.
  exact (load_then_save (R := rotating_random) example_iterator
           (checkpoint 1 2) (VInt 1) (Iterable 3 [[2]; [0]; [1]]) empty_world
           eq_refl eq_refl eq_refl eq_refl).
Defined.

Lemma next_epoch_itr_frame_witness :
  match next_epoch_itr example_iterator true empty_world with
  | (Ok l, self', w') =>
      heap empty_world !! l = None /\
      (forall l', l' <> l -> heap w' !! l' = heap empty_world !! l') /\
      rng w' = rng empty_world /\
      self' = EpochBatchIterator.set_cur (Some l)
                (EpochBatchIterator.set_epoch (epoch example_iterator + 1)
                                              example_iterator)
  | (Raise _, self', w') =>
      w' = empty_world /\
      self' = EpochBatchIterator.set_epoch (epoch example_iterator + 1)
                                           example_iterator
  end.
Proof.
  apply (next_epoch_itr_frame (R := rotating_random) example_iterator true
           empty_world).
  reflexivity.
Defined.

(** A call that raises keeps the increment: with shard 5 of 1 the
    constructor of the shard refuses the descriptor, and [epoch] is 1
    afterwards. *)
Lemma next_epoch_itr_failure_keeps_increment :
  let self :=
    EpochBatchIterator.__init__ (fun i => i) (fun b => b) three_batches
                                1 1 5 in
  match next_epoch_itr self true empty_world with
  | (Ok _, _, _) => False
  | (Raise ex, self', w') =>
      ex = ValueError /\ epoch self = 0 /\ epoch self' = 1 /\
      w' = empty_world /\ _cur_epoch_itr self' = None
  end.
Proof. vm_compute. repeat split. Qed.

Lemma epoch_length_in_step_witness :
  it_len (Iterable 3 [[2]; [0]; [1]])
  = ceil_div (len (frozen_batches example_iterator))
             (num_shards example_iterator) /\
  len (it_items (Iterable 3 [[2]; [0]; [1]]))
  = ceil_div (len (frozen_batches example_iterator))
             (num_shards example_iterator).
Proof.
  apply (epoch_length_in_step (R := rotating_random)
           rotate_shuffle_permutation example_iterator 1 true
           (Iterable 3 [[2]; [0]; [1]])).
  reflexivity.
Defined.

Lemma single_shard_epoch_is_plan_witness :
  Permutation (it_items (Iterable 3 [[2]; [0]; [1]]))
              (map (fun b => collate_fn example_iterator
                               (map (dataset example_iterator) b))
                   (frozen_batches example_iterator)) /\
  (true = false ->
   it_items (Iterable 3 [[2]; [0]; [1]])
   = map (fun b => collate_fn example_iterator
                     (map (dataset example_iterator) b))
         (frozen_batches example_iterator)).
Proof.
  apply (single_shard_epoch_is_plan (R := rotating_random)
           rotate_shuffle_permutation example_iterator 1 true
           (Iterable 3 [[2]; [0]; [1]])); reflexivity.
Defined.

End MoreEpochFacts.

(** ** filter_by_size *)

Module FilterFacts.
Import Filtering.

Section Facts.
Variable size_fn : Z -> size_value.
Variable max_positions : size_value.

Local Abbreviation check := (check_size size_fn max_positions).
Local Abbreviation ok := (passes size_fn max_positions).

Lemma filter_events_quiet (indices : list Z) :
  Forall (well_typed size_fn max_positions) indices ->
  forall ignored,
    let r := filter_events false (collect_filtered check indices) ignored in
    failure_of r = None /\
    kept r = List.filter ok indices /\
    ignored_of r = ignored ++ List.filter (fun i => negb (ok i)) indices /\
    warned_of r = (0 <? len (ignored_of r)).
Proof.
  induction 1 as [| idx rest Hwt _ IH]; intros ignored.
  - simpl. rewrite app_nil_r. repeat split.
  - unfold well_typed in Hwt. cbn [collect_filtered List.filter]. unfold passes.
    destruct (check_size size_fn max_positions idx) as [[|] |];
      [| | congruence].
    + cbn [filter_events negb]. rewrite andb_false_r.
      destruct (IH ignored) as (H1 & H2 & H3 & H4).
      cbn [failure_of kept ignored_of warned_of].
      repeat split; try assumption. now rewrite H2.
    + cbn [filter_events negb].
      destruct (IH (ignored ++ [idx])) as (H1 & H2 & H3 & H4).
      repeat split; try assumption.
      rewrite H3, <- app_assoc. reflexivity.
Qed.

Lemma filter_events_after_ignored (indices : list Z) :
  Forall (well_typed size_fn max_positions) indices ->
  forall ignored,
    ignored <> [] ->
    let r := filter_events true (collect_filtered check indices) ignored in
    kept r = [] /\
    match find ok indices with
    | Some j =>
        failure_of r = Some (SizeException j) /\
        ignored_of r = ignored ++ take_while (fun i => negb (ok i)) indices
    | None => failure_of r = None /\ ignored_of r = ignored ++ indices /\
              warned_of r = true
    end.
Proof.
  induction 1 as [| idx rest Hwt _ IH]; intros ignored Hne.
  - simpl. rewrite app_nil_r. repeat split.
    apply Z.ltb_lt. destruct ignored; [congruence |]. unfold len. simpl. lia.
  - unfold well_typed in Hwt. cbn [collect_filtered find take_while].
    unfold passes.
    destruct (check_size size_fn max_positions idx) as [[|] |];
      [| | congruence].
    + cbn [filter_events negb].
      assert ((0 <? len ignored) = true) as ->.
      { apply Z.ltb_lt. destruct ignored; [congruence |].
        unfold len. simpl. lia. }
      cbn [andb kept failure_of ignored_of]. rewrite app_nil_r.
      repeat split.
    + cbn [filter_events negb].
      assert (Hne' : ignored ++ [idx] <> []) by (now destruct ignored).
      destruct (IH (ignored ++ [idx]) Hne') as [H1 H2].
      split; [exact H1 |].
      fold (passes size_fn max_positions) in *.
      destruct (find ok rest) as [j |].
      * destruct H2 as [H2 H3]. split; [exact H2 |].
        rewrite H3, <- app_assoc. reflexivity.
      * destruct H2 as (H2 & H3 & H4). repeat split; try assumption.
        rewrite H3, <- app_assoc. reflexivity.
Qed.

(** X18.  Without [raise_exception], [filter_by_size] splits the indices in
    two and keeps the order of both parts: it yields exactly the indices
    that pass the size check, collects exactly the others in [ignored],
    never raises, and prints the warning exactly when something was
    ignored.  (The size checks are assumed not to raise [TypeError].) *)
Theorem filter_by_size_partitions (indices : list Z) :
  Forall (well_typed size_fn max_positions) indices ->
  let r := filter_by_size size_fn max_positions false indices in
  failure_of r = None /\
  kept r = List.filter ok indices /\
  ignored_of r = List.filter (fun i => negb (ok i)) indices /\
  warned_of r = (0 <? len (ignored_of r)).
Proof.
  intros Hwt. unfold filter_by_size.
  apply (filter_events_quiet indices Hwt []).
Qed.

(** X19.  With [raise_exception], the exception is raised only when a
    passing index comes after a failing one, and it names that passing
    index.  The indices before the first failing one are yielded; then the
    run raises at the first index that passes again, or, when no index
    passes any more, ends normally having only warned.  Invalid indices at
    the end of the input are therefore skipped without an exception. *)
Theorem filter_by_size_raises_late (indices : list Z) :
  Forall (well_typed size_fn max_positions) indices ->
  let r := filter_by_size size_fn max_positions true indices in
  kept r = take_while ok indices /\
  match find ok (drop_while ok indices) with
  | Some j =>
      failure_of r = Some (SizeException j) /\
      ignored_of r
      = take_while (fun i => negb (ok i)) (drop_while ok indices)
  | None =>
      failure_of r = None /\ ignored_of r = drop_while ok indices /\
      warned_of r = (0 <? len (drop_while ok indices))
  end.
Proof.
  unfold filter_by_size.
  induction 1 as [| idx rest Hwt Hrest IH].
  - simpl. repeat split.
  - unfold well_typed in Hwt.
    destruct (check_size size_fn max_positions idx) as [[|] |] eqn:Hc;
      [| | congruence].
    + assert (Hp : ok idx = true) by (unfold passes; now rewrite Hc).
      cbn [collect_filtered take_while drop_while]. rewrite Hc, Hp.
      cbn [filter_events].
      change (0 <? len (@nil Z)) with false.
      cbn [andb kept failure_of ignored_of warned_of].
      cbv zeta in IH. destruct IH as [IH1 IH2]. split; [now rewrite IH1 |].
      exact IH2.
    + assert (Hp : ok idx = false) by (unfold passes; now rewrite Hc).
      cbn [collect_filtered take_while drop_while]. rewrite Hc, Hp.
      cbn [filter_events]. change ([] ++ [idx]) with [idx].
      pose proof (filter_events_after_ignored rest Hrest [idx]
                    ltac:(discriminate)) as [H1 H2].
      split; [exact H1 |].
      cbn [find take_while]. rewrite Hp. cbn [negb].
      destruct (find ok rest) as [j |].
      * exact H2.
      * destruct H2 as (H2 & H3 & H4). repeat split; assumption.
Qed.
End Facts.

Lemma filter_by_size_partitions_witness :
  let r := filter_by_size size_two_long (SizeInt 5) false [0; 1; 2; 3] in
  failure_of r = None /\
  kept r = List.filter (passes size_two_long (SizeInt 5)) [0; 1; 2; 3] /\
  ignored_of r
  = List.filter (fun i => negb (passes size_two_long (SizeInt 5) i)) [0; 1; 2; 3] /\
  warned_of r = (0 <? len (ignored_of r)).
Proof.
  apply (filter_by_size_partitions size_two_long (SizeInt 5) [0; 1; 2; 3]).
  repeat constructor; discriminate.
Defined.

Lemma filter_by_size_raises_late_witness :
  let r := filter_by_size size_two_long (SizeInt 5) true [0; 1; 2] in
  kept r = take_while (passes size_two_long (SizeInt 5)) [0; 1; 2] /\
  match find (passes size_two_long (SizeInt 5))
             (drop_while (passes size_two_long (SizeInt 5)) [0; 1; 2]) with
  | Some j =>
      failure_of r = Some (SizeException j) /\
      ignored_of r
      = take_while (fun i => negb (passes size_two_long (SizeInt 5) i))
                   (drop_while (passes size_two_long (SizeInt 5)) [0; 1; 2])
  | None =>
      failure_of r = None /\
      ignored_of r = drop_while (passes size_two_long (SizeInt 5)) [0; 1; 2] /\
      warned_of r
      = (0 <? len (drop_while (passes size_two_long (SizeInt 5)) [0; 1; 2]))
  end.
Proof.
  apply (filter_by_size_raises_late size_two_long (SizeInt 5) [0; 1; 2]).
  repeat constructor; discriminate.
Defined.

End FilterFacts.

(** ** collate_tokens *)

Module CollateFacts.
Import Collate.

Lemma py_max_ge (l : list Z) (x : Z) : In x l -> x <= py_max l.
Proof.
  destruct l as [| y r]; [intros [] |]. simpl.
  assert (G : forall r a, a <= fold_left Z.max r a /\
                          (forall z, In z r -> z <= fold_left Z.max r a)).
  { clear. induction r as [| b r IH]; intros a; simpl.
    - split; [lia | intros z []].
    - destruct (IH (Z.max a b)) as [H1 H2]. split; [lia |].
      intros z [<- | Hz]; [lia | now apply H2]. }
  destruct (G r y) as [H1 H2]. intros [<- | Hx]; [exact H1 | now apply H2].
Qed.

Lemma firstn_repeat_le {A : Type} (x : A) (k n : nat) :
  (k <= n)%nat -> firstn k (repeat x n) = repeat x k.
Proof.
  revert n. induction k as [| k IH]; intros n Hk; [reflexivity |].
  destruct n as [| n]; [lia |]. simpl. f_equal. apply IH. lia.
Qed.

Lemma skipn_repeat_le {A : Type} (x : A) (k n : nat) :
  skipn k (repeat x n) = repeat x (n - k).
Proof.
  revert n. induction k as [| k IH]; intros n.
  - now rewrite Nat.sub_0_r.
  - destruct n as [| n]; [reflexivity |]. simpl. apply IH.
Qed.

Lemma slice_to_repeat (x : Z) (n : nat) (d : Z) :
  0 <= d <= Z.of_nat n -> slice_to (repeat x n) d = repeat x (Z.to_nat d).
Proof.
  intros Hd. unfold slice_to, slice_bound, len. rewrite repeat_length.
  destruct (d <? 0) eqn:E; [apply Z.ltb_lt in E; lia |].
  rewrite Z.min_l by lia. apply firstn_repeat_le. lia.
Qed.

Lemma slice_from_repeat (x : Z) (n : nat) (d : Z) :
  0 <= d <= Z.of_nat n ->
  slice_from (repeat x n) d = repeat x (n - Z.to_nat d).
Proof.
  intros Hd. unfold slice_from, slice_bound, len. rewrite repeat_length.
  destruct (d <? 0) eqn:E; [apply Z.ltb_lt in E; lia |].
  rewrite Z.min_l by lia. apply skipn_repeat_le.
Qed.

Lemma slice_to_minus_one (body : list Z) (x : Z) :
  slice_to (body ++ [x]) (-1) = body.
Proof.
  unfold slice_to, slice_bound, len. rewrite length_app. cbn [length Z.ltb Z.compare].
  replace (Z.to_nat (Z.max 0 (Z.of_nat (length body + 1) + -1)))
    with (length body) by lia.
  rewrite firstn_app, firstn_all, Nat.sub_diag. cbn [firstn]. apply app_nil_r.
Qed.

Section Facts.
Variables pad_idx eos_idx : Z.
Variables left_pad move_eos : bool.

Local Abbreviation copy := (copy_tensor eos_idx move_eos).
Local Abbreviation contents := (all_contents eos_idx move_eos).
Local Abbreviation padded := (pad_row pad_idx left_pad).

Lemma copy_tensor_len (src dst : list Z) :
  len dst = len src -> copy src dst = copy src src.
Proof. intros H. unfold copy_tensor. now rewrite H. Qed.

(** What is copied is as long as the value. *)
Lemma copy_tensor_keeps_len (v c : list Z) :
  copy v v = Returns c -> len c = len v.
Proof.
  unfold copy_tensor. rewrite Z.eqb_refl. cbn [negb].
  destruct move_eos; [| now intros [= <-]].
  destruct (last v) as [x |] eqn:Hl; [| discriminate].
  destruct (negb (fits_int64 eos_idx)); [discriminate |].
  destruct (negb (x =? eos_idx)); [discriminate |]. intros [= <-].
  apply last_Some in Hl as [body ->]. rewrite slice_to_minus_one.
  unfold len. rewrite length_app. simpl. lia.
Qed.

Lemma copy_rows_spec (size : Z) (rest : list (list Z)) :
  Forall (fun v => len v <= size) rest ->
  forall done : list (list Z),
    copy_rows eos_idx left_pad move_eos size (length done) rest
              (done ++ repeat (repeat pad_idx (Z.to_nat size)) (length rest))
    = match contents rest with
      | Fails e => Fails e
      | Returns cs => Returns (done ++ map (padded size) cs)
      end.
Proof.
  induction 1 as [| v rest Hv _ IH]; intros done.
  - simpl. reflexivity.
  - cbn [copy_rows all_contents length repeat].
    pose proof (BatchFacts.len_nonneg v) as Hnn.
    rewrite lookup_app_r by lia. rewrite Nat.sub_diag. cbn [lookup list_lookup].
    assert (Hsz : Z.of_nat (Z.to_nat size) = size) by lia.
    destruct left_pad eqn:Hlp.
    + rewrite slice_from_repeat, slice_to_repeat by lia.
      rewrite copy_tensor_len
        by (unfold len in *; rewrite repeat_length; lia).
      destruct (copy v v) as [c | e] eqn:Hc; [| reflexivity].
      pose proof (copy_tensor_keeps_len v c Hc) as Hlen.
      replace (<[length done := repeat pad_idx (Z.to_nat (size - len v)) ++ c]>
                 (done ++ repeat pad_idx (Z.to_nat size)
                       :: repeat (repeat pad_idx (Z.to_nat size)) (length rest)))
        with ((done ++ [repeat pad_idx (Z.to_nat (size - len v)) ++ c])
                ++ repeat (repeat pad_idx (Z.to_nat size)) (length rest)).
      2:{ rewrite insert_app_r_alt by lia. rewrite Nat.sub_diag.
          cbn [insert list_insert]. now rewrite <- app_assoc. }
      replace (S (length done))
        with (length (done ++ [repeat pad_idx (Z.to_nat (size - len v)) ++ c]))
        by (rewrite length_app; simpl; lia).
      rewrite IH.
      destruct (contents rest) as [cs | e]; [| reflexivity].
      rewrite <- app_assoc. cbn [map app]. unfold pad_row at 2.
      rewrite Hlen. reflexivity.
    + rewrite slice_from_repeat, slice_to_repeat by lia.
      rewrite copy_tensor_len
        by (unfold len in *; rewrite repeat_length; lia).
      destruct (copy v v) as [c | e] eqn:Hc; [| reflexivity].
      pose proof (copy_tensor_keeps_len v c Hc) as Hlen.
      replace (<[length done := c ++ repeat pad_idx
                                     (Z.to_nat size - Z.to_nat (len v))]>
                 (done ++ repeat pad_idx (Z.to_nat size)
                       :: repeat (repeat pad_idx (Z.to_nat size)) (length rest)))
        with ((done ++ [c ++ repeat pad_idx (Z.to_nat size - Z.to_nat (len v))])
                ++ repeat (repeat pad_idx (Z.to_nat size)) (length rest)).
      2:{ rewrite insert_app_r_alt by lia. rewrite Nat.sub_diag.
          cbn [insert list_insert]. now rewrite <- app_assoc. }
      replace (S (length done))
        with (length (done ++ [c ++ repeat pad_idx
                                    (Z.to_nat size - Z.to_nat (len v))]))
        by (rewrite length_app; simpl; lia).
      rewrite IH.
      destruct (contents rest) as [cs | e]; [| reflexivity].
      rewrite <- app_assoc. cbn [map app]. unfold pad_row at 2.
      rewrite Hlen.
      replace (Z.to_nat size - Z.to_nat (len v))%nat
        with (Z.to_nat (size - len v)) by lia.
      reflexivity.
Qed.

Lemma collate_tokens_spec (values : list (list Z)) :
  values <> [] -> fits_int64 pad_idx = true ->
  collate_tokens pad_idx eos_idx left_pad move_eos values
  = match contents values with
    | Fails e => Fails e
    | Returns cs => Returns (map (padded (py_max (map len values))) cs)
    end.
Proof.
  intros Hne Hpad. unfold collate_tokens.
  destruct values as [| v0 vs]; [congruence |]. cbv zeta.
  rewrite Hpad. cbn [negb].
  apply (copy_rows_spec (py_max (map len (v0 :: vs))) (v0 :: vs)) with (done := []).
  apply List.Forall_forall. intros v Hv. apply py_max_ge. now apply in_map.
Qed.

Lemma pad_row_len (size : Z) (v : list Z) :
  len v <= size -> len (padded size v) = size.
Proof.
  intros Hv. unfold pad_row, len in *.
  destruct left_pad; rewrite length_app, repeat_length; lia.
Qed.
End Facts.

Lemma all_contents_plain (eos_idx : Z) (values : list (list Z)) :
  all_contents eos_idx false values = Returns values.
Proof.
  induction values as [| v rest IH]; [reflexivity |].
  cbn [all_contents]. unfold copy_tensor. rewrite Z.eqb_refl. cbn [negb].
  now rewrite IH.
Qed.

(** A scalar that does not fit is refused when the result is filled,
    whatever the values are. *)
Lemma collate_tokens_bad_pad (pad_idx eos_idx : Z) (left_pad move_eos : bool)
      (values : list (list Z)) :
  values <> [] -> fits_int64 pad_idx = false ->
  collate_tokens pad_idx eos_idx left_pad move_eos values
  = Fails RuntimeError.
Proof.
  intros Hne Hpad. unfold collate_tokens.
  destruct values as [| v0 vs]; [congruence |]. cbv zeta.
  now rewrite Hpad.
Qed.

Lemma all_contents_moved (eos_idx : Z) (values : list (list Z)) :
  fits_int64 eos_idx = true ->
  match all_contents eos_idx true values with
  | Returns cs =>
      Forall (ends_with eos_idx) values /\
      cs = map (fun v => eos_idx :: slice_to v (-1)) values
  | Fails _ => ~ Forall (ends_with eos_idx) values
  end.
Proof.
  intros Heos.
  induction values as [| v rest IH]; [simpl; split; [constructor | reflexivity] |].
  cbn [all_contents]. unfold copy_tensor. rewrite Z.eqb_refl, Heos. cbn [negb].
  destruct (last v) as [x |] eqn:Hl.
  - apply last_Some in Hl as [body ->].
    destruct (x =? eos_idx) eqn:Ex; cbn [negb].
    + apply Z.eqb_eq in Ex. subst x.
      destruct (all_contents eos_idx true rest) as [cs | e].
      * destruct IH as [IH1 ->]. split; [| reflexivity].
        constructor; [now exists body | exact IH1].
      * intros Hall. apply IH. now inversion Hall.
    + apply Z.eqb_neq in Ex. intros Hall. inversion Hall as [| ? ? [b Hb] _].
      apply app_inj_tail in Hb as [_ Hb]. congruence.
  - apply last_None in Hl. subst v. intros Hall.
    inversion Hall as [| ? ? [b Hb] _]. now destruct b.
Qed.

(** X20.  Without moving the end marker, and with a [pad_idx] that fits the
    64-bit entries, [collate_tokens] of a non-empty list of values returns
    one row per value, in order; every row is as wide as the longest value
    and holds its value next to the padding: padding first with
    [left_pad], value first without.  No value is truncated and nothing
    raises. *)
Theorem collate_tokens_pads (pad_idx eos_idx : Z) (left_pad : bool)
        (values : list (list Z)) :
  values <> [] ->
  fits_int64 pad_idx = true ->
  let size := py_max (map len values) in
  collate_tokens pad_idx eos_idx left_pad false values
  = Returns (map (pad_row pad_idx left_pad size) values) /\
  Forall (fun row => len row = size)
         (map (pad_row pad_idx left_pad size) values).
Proof.
  intros Hne Hpad size. split.
  - rewrite collate_tokens_spec by assumption.
    now rewrite all_contents_plain.
  - apply List.Forall_forall. intros row Hrow.
    apply in_map_iff in Hrow as (v & <- & Hv).
    apply pad_row_len. apply py_max_ge. now apply in_map.
Qed.

Lemma collate_tokens_pads_witness :
  [[1; 2; 3]; [4]] <> [] /\
  fits_int64 0 = true /\
  let size := py_max (map len [[1; 2; 3]; [4]]) in
  collate_tokens 0 9 true false [[1; 2; 3]; [4]]
  = Returns (map (pad_row 0 true size) [[1; 2; 3]; [4]]) /\
  Forall (fun row => len row = size)
         (map (pad_row 0 true size) [[1; 2; 3]; [4]]).
Proof.
  split; [discriminate |]. split; [reflexivity |].
  apply (collate_tokens_pads 0 9 true [[1; 2; 3]; [4]]);
    [discriminate | reflexivity].
Defined.

(** X21.  With [move_eos_to_beginning], and with [pad_idx] and [eos_idx]
    that fit the 64-bit entries, [collate_tokens] returns exactly when
    every value ends with [eos_idx]; each row then holds [eos_idx]
    followed by the value without its last entry, padded as before.  A
    value that is empty or ends otherwise makes the call fail. *)
Theorem collate_tokens_moves_eos (pad_idx eos_idx : Z) (left_pad : bool)
        (values : list (list Z)) :
  values <> [] ->
  fits_int64 pad_idx = true -> fits_int64 eos_idx = true ->
  match collate_tokens pad_idx eos_idx left_pad true values with
  | Returns res =>
      Forall (ends_with eos_idx) values /\
      res = map (fun v => pad_row pad_idx left_pad (py_max (map len values))
                                  (eos_idx :: slice_to v (-1)))
                values
  | Fails _ => ~ Forall (ends_with eos_idx) values
  end.
Proof.
  intros Hne Hpad Heos. rewrite collate_tokens_spec by assumption.
  pose proof (all_contents_moved eos_idx values Heos) as H.
  destruct (all_contents eos_idx true values) as [cs | e]; [| exact H].
  destruct H as [H1 ->]. split; [exact H1 |]. now rewrite map_map.
Qed.

Lemma collate_tokens_moves_eos_witness :
  [[1; 2; 9]; [4; 9]] <> [] /\
  fits_int64 0 = true /\ fits_int64 9 = true /\
  match collate_tokens 0 9 false true [[1; 2; 9]; [4; 9]] with
  | Returns res =>
      Forall (ends_with 9) [[1; 2; 9]; [4; 9]] /\
      res = map (fun v => pad_row 0 false
                                  (py_max (map len [[1; 2; 9]; [4; 9]]))
                                  (9 :: slice_to v (-1)))
                [[1; 2; 9]; [4; 9]]
  | Fails _ => ~ Forall (ends_with 9) [[1; 2; 9]; [4; 9]]
  end.
Proof.
  split; [discriminate |]. split; [reflexivity |]. split; [reflexivity |].
  apply (collate_tokens_moves_eos 0 9 false [[1; 2; 9]; [4; 9]]);
    [discriminate | reflexivity | reflexivity].
Defined.

End CollateFacts.

(** ** Truncation of sentences *)

Module TruncateFacts.
Import Truncate.

Lemma half_draw_in_range : draws_in_range half_draw.
Proof.
  intros n g Hn. unfold half_draw. cbn [fst].
  pose proof (Z.div_pos n 2 Hn ltac:(lia)).
  pose proof (Z.div_le_upper_bound n 2 n ltac:(lia) ltac:(lia)). lia.
Qed.

Lemma slice_between_segment {A : Type} (l : list A) (a b : Z) :
  segment_of (slice_between l a b) l.
Proof.
  unfold slice_between, segment_of. cbv zeta.
  set (s := slice_bound (len l) a). set (e := slice_bound (len l) b).
  exists (firstn s l), (skipn (e - s) (skipn s l)).
  now rewrite firstn_skipn, firstn_skipn.
Qed.

Lemma segment_of_refl {A : Type} (l : list A) : segment_of l l.
Proof. exists [], []. now rewrite app_nil_r. Qed.

Lemma segment_of_trans {A : Type} (a b c : list A) :
  segment_of a b -> segment_of b c -> segment_of a c.
Proof.
  intros (p1 & q1 & ->) (p2 & q2 & ->).
  exists (p2 ++ p1), (q1 ++ q2). now rewrite <- !app_assoc.
Qed.

Lemma len_slice_between {A : Type} (l : list A) (h t : Z) :
  0 <= h -> 0 < t ->
  len (slice_between l h (- t)) = Z.max 0 (len l - (h + t)).
Proof.
  intros Hh Ht. unfold slice_between, slice_bound, len. cbv zeta.
  rewrite length_firstn, length_skipn.
  destruct (h <? 0) eqn:E1; [apply Z.ltb_lt in E1; lia |].
  destruct (- t <? 0) eqn:E2; [| apply Z.ltb_ge in E2; lia].
  lia.
Qed.

Lemma slice_between_stop_zero {A : Type} (l : list A) (h : Z) :
  0 <= h -> slice_between l h (- 0) = [].
Proof.
  intros Hh. unfold slice_between, slice_bound. cbv zeta.
  cbn [Z.opp Z.ltb Z.compare].
  pose proof (BatchFacts.len_nonneg l).
  rewrite (Z.min_l 0) by lia. reflexivity.
Qed.

Section Facts.
Context {G : Type}.
Variable draw : Z -> G -> Z * G.
Hypothesis Hdraw : draws_in_range draw.

Lemma trunc_sent_spec (sent : list Z) (cnt : Z) (g : G) :
  0 <= cnt ->
  let h := fst (draw cnt g) in
  _trunc_sent draw sent cnt g
  = (Ok (slice_between sent h (- (cnt - h))), snd (draw cnt g)) /\
  segment_of (slice_between sent h (- (cnt - h))) sent /\
  len (slice_between sent h (- (cnt - h)))
  = if h =? cnt then 0 else Z.max 0 (len sent - cnt).
Proof.
  intros Hc h. pose proof (Hdraw cnt g Hc) as Hr. fold h in Hr.
  unfold _trunc_sent, np_random_binomial.
  destruct (cnt <? 0) eqn:E; [apply Z.ltb_lt in E; lia |].
  subst h. destruct (draw cnt g) as [k g']. cbn [fst snd] in *.
  split; [reflexivity |]. split; [apply slice_between_segment |].
  destruct (k =? cnt) eqn:Ek.
  - apply Z.eqb_eq in Ek. subst k. rewrite Z.sub_diag.
    now rewrite slice_between_stop_zero by lia.
  - apply Z.eqb_neq in Ek. rewrite len_slice_between by lia. f_equal. lia.
Qed.

(** X22.  [_trunc_sent] cuts [cnt] tokens off the two ends of the sentence,
    as many from the head as the draw says, and returns the run of tokens
    between, of length [max(0, len - cnt)] -- unless the draw takes all
    [cnt] from the head: the slice then stops at [-0], which is position 0,
    and the result is empty.  In particular a call with [cnt = 0] returns
    the empty sentence. *)
Theorem trunc_sent_cuts_both_ends (sent : list Z) (cnt : Z) (g : G) :
  0 <= cnt ->
  exists r,
    _trunc_sent draw sent cnt g = (Ok r, snd (draw cnt g)) /\
    segment_of r sent /\
    len r = if fst (draw cnt g) =? cnt then 0 else Z.max 0 (len sent - cnt).
Proof.
  intros Hc. destruct (trunc_sent_spec sent cnt g Hc) as (H1 & H2 & H3).
  eexists. split; [exact H1 |]. split; [exact H2 | exact H3].
Qed.

(** X23.  [truncate_single] leaves a sentence that fits
    ([len + 1 <= max_positions]) as it is and draws nothing.  A longer one
    is cut to a run of its own tokens of exactly [max_positions - 1]
    tokens, or to the empty sentence when the draw takes everything from
    the head; either way the result fits when [max_positions >= 1]. *)
Theorem truncate_single_fits (sent : list Z) (max_positions : Z) (g : G) :
  1 <= max_positions ->
  exists r g',
    truncate_single draw sent max_positions g = (Ok r, g') /\
    segment_of r sent /\
    len r + 1 <= max_positions /\
    (len sent + 1 <= max_positions -> r = sent /\ g' = g) /\
    (max_positions < len sent + 1 ->
     len r = max_positions - 1 \/
     (r = [] /\ fst (draw (len sent + 1 - max_positions) g)
                = len sent + 1 - max_positions)).
Proof.
  intros Hm. unfold truncate_single. cbv zeta.
  destruct (len sent + 1 - max_positions <=? 0) eqn:E.
  - apply Z.leb_le in E. exists sent, g.
    split; [reflexivity |]. split; [apply segment_of_refl |].
    split; [lia |]. split; [now split | lia].
  - apply Z.leb_gt in E.
    destruct (trunc_sent_spec sent (len sent + 1 - max_positions) g
                ltac:(lia)) as (H1 & H2 & H3).
    eexists _, _. split; [exact H1 |]. split; [exact H2 |].
    destruct (_ =? _) eqn:Eh in H3.
    + apply Z.eqb_eq in Eh. split; [lia |]. split; [lia |].
      intros _. right. split; [| exact Eh].
      apply BatchFacts.len_zero_nil. exact H3.
    + split; [lia |]. split; [lia |]. intros _. left. lia.
Qed.

(** X24.  [truncate_pair] never raises, returns a pair that fits unchanged
    and without drawing, and otherwise returns, for each sentence, a run of
    consecutive tokens of that sentence: nothing is reordered, and nothing
    moves from one sentence to the other. *)
Theorem truncate_pair_segments (sent1 sent2 : list Z) (max_positions : Z)
        (g : G) :
  exists r1 r2 g',
    truncate_pair draw sent1 sent2 max_positions g = (Ok (r1, r2), g') /\
    segment_of r1 sent1 /\ segment_of r2 sent2 /\
    (len sent1 + len sent2 + 1 <= max_positions ->
     r1 = sent1 /\ r2 = sent2 /\ g' = g).
Proof.
  unfold truncate_pair. cbv zeta.
  set (diff := len sent1 + len sent2 + 1 - max_positions).
  destruct (diff <=? 0) eqn:E.
  { exists sent1, sent2, g. repeat split; apply segment_of_refl. }
  apply Z.leb_gt in E.
  assert (Hfinal :
            forall s1 s2 d g1,
              segment_of s1 sent1 -> segment_of s2 sent2 ->
              exists r1 r2 g',
                (if d <=? 0 then (Ok (s1, s2), g1)
                 else
                   match np_random_binomial draw d g1 with
                   | (Raise e, g2) => (Raise e, g2)
                   | (Ok trunc1, g2) =>
                       match _trunc_sent draw s1 trunc1 g2 with
                       | (Raise e, g3) => (Raise e, g3)
                       | (Ok r1, g3) =>
                           match _trunc_sent draw s2 (d - trunc1) g3 with
                           | (Raise e, g4) => (Raise e, g4)
                           | (Ok r2, g4) => (Ok (r1, r2), g4)
                           end
                       end
                   end) = (Ok (r1, r2), g') /\
                segment_of r1 sent1 /\ segment_of r2 sent2).
  { intros s1 s2 d g1 Hs1 Hs2.
    destruct (d <=? 0) eqn:Ed; [exists s1, s2, g1; now repeat split |].
    apply Z.leb_gt in Ed. unfold np_random_binomial.
    destruct (d <? 0) eqn:Ed'; [apply Z.ltb_lt in Ed'; lia |].
    pose proof (Hdraw d g1 ltac:(lia)) as Hr.
    destruct (draw d g1) as [t1 g2]. cbn [fst] in Hr.
    destruct (trunc_sent_spec s1 t1 g2 ltac:(lia)) as (A1 & A2 & _).
    rewrite A1.
    destruct (trunc_sent_spec s2 (d - t1) (snd (draw t1 g2)) ltac:(lia))
      as (B1 & B2 & _).
    rewrite B1. eexists _, _, _. split; [reflexivity |].
    split; eapply segment_of_trans; eassumption. }
  assert (Hout :
            forall x : result (list Z * list Z) * G,
              (exists r1 r2 g', x = (Ok (r1, r2), g') /\
                                segment_of r1 sent1 /\ segment_of r2 sent2) ->
              exists r1 r2 g',
                x = (Ok (r1, r2), g') /\
                segment_of r1 sent1 /\ segment_of r2 sent2 /\
                (len sent1 + len sent2 + 1 <= max_positions ->
                 r1 = sent1 /\ r2 = sent2 /\ g' = g)).
  { intros x (r1 & r2 & g' & -> & H1 & H2). exists r1, r2, g'.
    repeat split; try assumption; lia. }
  apply Hout.
  pose proof (BatchFacts.len_nonneg sent1). pose proof (BatchFacts.len_nonneg sent2).
  destruct (len sent2 <? len sent1) eqn:E1.
  - apply Z.ltb_lt in E1.
    destruct (trunc_sent_spec sent1 (Z.min (len sent1 - len sent2) diff) g
                ltac:(lia)) as (A1 & A2 & _).
    rewrite A1. apply Hfinal; [exact A2 | apply segment_of_refl].
  - destruct (len sent1 <? len sent2) eqn:E2.
    + apply Z.ltb_lt in E2.
      destruct (trunc_sent_spec sent2 (Z.min (len sent2 - len sent1) diff) g
                  ltac:(lia)) as (A1 & A2 & _).
      rewrite A1. apply Hfinal; [apply segment_of_refl | exact A2].
    + apply Hfinal; apply segment_of_refl.
Qed.
End Facts.

Lemma trunc_sent_cuts_both_ends_witness :
  0 <= 2 /\
  exists r,
    _trunc_sent half_draw [1; 2; 3; 4; 5] 2 0%nat
    = (Ok r, snd (half_draw 2 0%nat)) /\
    segment_of r [1; 2; 3; 4; 5] /\
    len r = if fst (half_draw 2 0%nat) =? 2 then 0
            else Z.max 0 (len [1; 2; 3; 4; 5] - 2).
Proof.
  split; [lia |].
  apply (trunc_sent_cuts_both_ends half_draw half_draw_in_range
           [1; 2; 3; 4; 5] 2 0%nat).
  lia.
Defined.

Lemma truncate_single_fits_witness :
  1 <= 4 /\
  exists r g',
    truncate_single half_draw [1; 2; 3; 4; 5] 4 0%nat = (Ok r, g') /\
    segment_of r [1; 2; 3; 4; 5] /\
    len r + 1 <= 4 /\
    (len [1; 2; 3; 4; 5] + 1 <= 4 -> r = [1; 2; 3; 4; 5] /\ g' = 0%nat) /\
    (4 < len [1; 2; 3; 4; 5] + 1 ->
     len r = 4 - 1 \/
     (r = [] /\ fst (half_draw (len [1; 2; 3; 4; 5] + 1 - 4) 0%nat)
                = len [1; 2; 3; 4; 5] + 1 - 4)).
Proof.
  split; [lia |].
  apply (truncate_single_fits half_draw half_draw_in_range
           [1; 2; 3; 4; 5] 4 0%nat).
  lia.
Defined.

Lemma truncate_pair_segments_witness :
  exists r1 r2 g',
    truncate_pair half_draw [1; 2; 3; 4; 5] [6; 7] 5 0%nat
    = (Ok (r1, r2), g') /\
    segment_of r1 [1; 2; 3; 4; 5] /\ segment_of r2 [6; 7] /\
    (len [1; 2; 3; 4; 5] + len [6; 7] + 1 <= 5 ->
     r1 = [1; 2; 3; 4; 5] /\ r2 = [6; 7] /\ g' = 0%nat).
Proof.
  apply (truncate_pair_segments half_draw half_draw_in_range
           [1; 2; 3; 4; 5] [6; 7] 5 0%nat).
Defined.

End TruncateFacts.

(** ** GroupedIterator *)

Module GroupedFacts.
Import Iterators.
Import GroupedIterator.

Lemma ceil_div_step (L c : Z) :
  0 < L -> 1 <= c -> ceil_div L c = 1 + ceil_div (Z.max 0 (L - c)) c.
Proof.
  intros HL Hc. unfold ceil_div.
  destruct (Z_lt_ge_dec L c) as [Hlt | Hge].
  - rewrite Z.max_l by lia.
    rewrite (Z.div_small (0 + c - 1)) by lia.
    symmetry. apply (Z.div_unique (L + c - 1) c 1 (L - 1)); lia.
  - rewrite Z.max_r by lia.
    replace (L + c - 1) with ((L - c + c - 1) + 1 * c) by lia.
    rewrite Z.div_add by lia. lia.
Qed.

Section Facts.
Context {A : Type}.

Lemma take_chunk_spec (n : nat) :
  forall (l chunk : list A),
    take_chunk n l chunk
    = (chunk ++ firstn n l, skipn n l, (length l <? n)%nat).
Proof.
  induction n as [| n IH]; intros l chunk.
  - simpl. now rewrite app_nil_r.
  - destruct l as [| x r]; simpl.
    + now rewrite app_nil_r.
    + rewrite IH, <- app_assoc. reflexivity.
Qed.

Lemma next_spec (l : list A) (c : Z) :
  1 <= c ->
  __next__ (Make l c)
  = match l with
    | [] => (Raise StopIteration, Make [] c)
    | _ :: _ => (Ok (firstn (Z.to_nat c) l), Make (skipn (Z.to_nat c) l) c)
    end.
Proof.
  intros Hc. unfold __next__. cbn [itr chunk_size].
  rewrite take_chunk_spec. cbn [app].
  destruct l as [| x r].
  - destruct (Z.to_nat c) eqn:E; [lia |]. reflexivity.
  - destruct (Z.to_nat c) as [| k] eqn:E; [lia |].
    cbn [firstn]. unfold len. cbn [length].
    rewrite andb_false_r. reflexivity.
Qed.

Lemma groups_go_spec (c : Z) (fuel : nat) :
  1 <= c ->
  forall l : list A,
    (length l < fuel)%nat ->
    exists gs,
      groups_go fuel (Make l c) = Some gs /\
      concat gs = l /\
      Forall (fun g => g <> [] /\ len g <= c) gs /\
      Forall (fun g => len g = c) (removelast gs) /\
      len gs = ceil_div (len l) c.
Proof.
  intros Hc. induction fuel as [| fuel IH]; intros l Hl; [lia |].
  cbn [groups_go]. rewrite next_spec by exact Hc.
  destruct l as [| x r].
  - exists []. repeat split; try constructor.
    unfold ceil_div, len. simpl. rewrite Z.div_small by lia. reflexivity.
  - set (l := x :: r) in *.
    destruct (IH (skipn (Z.to_nat c) l)) as (gs & Hg & Hcat & Hne & Hfull & Hn).
    { rewrite length_skipn. subst l. simpl in *. lia. }
    rewrite Hg. exists (firstn (Z.to_nat c) l :: gs).
    split; [reflexivity |]. split.
    { cbn [concat]. rewrite Hcat. apply firstn_skipn. }
    assert (Hlen1 : len (firstn (Z.to_nat c) l) = Z.min c (len l)).
    { unfold len. rewrite length_firstn. lia. }
    assert (Hpos : 0 < len l) by (subst l; unfold len; simpl; lia).
    split.
    { constructor; [| exact Hne]. split; [| lia].
      intros Hnil. rewrite Hnil in Hlen1. unfold len in Hlen1 at 1.
      simpl in Hlen1. lia. }
    split.
    { destruct gs as [| g gs']; [constructor |].
      cbn [removelast]. constructor; [| exact Hfull].
      (* another group follows, so this one is full *)
      assert (Hrest : skipn (Z.to_nat c) l <> []).
      { rewrite <- Hcat. inversion Hne as [| ? ? [Hg0 _] _].
        destruct g; [congruence | discriminate]. }
      assert (c < len l).
      { destruct (Z_lt_ge_dec c (len l)) as [H | H]; [exact H |].
        exfalso. apply Hrest. apply skipn_all2. unfold len in H. lia. }
      lia. }
    { rewrite (ceil_div_step (len l) c Hpos Hc).
      replace (Z.max 0 (len l - c)) with (len (skipn (Z.to_nat c) l))
        by (unfold len; rewrite length_skipn; lia).
      rewrite <- Hn. unfold len. simpl. lia. }
Qed.

(** X25.  With a chunk size of at least 1 that [float] can convert (below
    [2 ** 1024 - 2 ** 970]), the iterator is built, and reading it to its
    end takes finitely many calls and gives groups that, written one after
    the other, are the items of the wrapped iterator in order; no group is
    empty, every group but the last holds exactly [chunk_size] items, and
    there are [ceil(len / chunk_size)] groups. *)
Theorem grouped_iterator_chunks (iterable : list A) (chunk_size : Z) :
  1 <= chunk_size < float_limit ->
  exists self gs,
    __init__ iterable chunk_size = Ok self /\
    groups self = Some gs /\
    concat gs = iterable /\
    Forall (fun g => g <> [] /\ len g <= chunk_size) gs /\
    Forall (fun g => len g = chunk_size) (removelast gs) /\
    len gs = ceil_div (len iterable) chunk_size.
Proof.
  intros [Hc Hf]. unfold __init__, float_overflows.
  destruct (float_limit <=? Z.abs chunk_size) eqn:Ef;
    [apply Z.leb_le in Ef; lia |].
  destruct (chunk_size =? 0) eqn:E; [apply Z.eqb_eq in E; lia |].
  destruct (groups_go_spec chunk_size (S (length iterable)) Hc iterable
              ltac:(lia)) as (gs & H).
  exists (Make iterable chunk_size), gs. split; [reflexivity |]. exact H.
Qed.

(** X26.  A chunk size that is not positive.  When its magnitude reaches
    [2 ** 1024 - 2 ** 970], building the iterator raises [OverflowError]
    (from [float]); zero is refused with [ZeroDivisionError]; any other
    negative chunk size is accepted, and [next()] then returns an empty
    group without taking anything from the wrapped iterator, so that it
    never raises [StopIteration]. *)
Theorem grouped_iterator_bad_chunk_size (iterable : list A) (chunk_size : Z) :
  chunk_size <= 0 ->
  if chunk_size <=? - float_limit
  then __init__ iterable chunk_size = Raise OverflowError
  else if chunk_size =? 0
  then __init__ iterable chunk_size = Raise ZeroDivisionError
  else exists self,
      __init__ iterable chunk_size = Ok self /\
      __next__ self = (Ok [], self).
Proof.
  intros Hc. unfold __init__, float_overflows.
  destruct (chunk_size <=? - float_limit) eqn:Eo.
  - apply Z.leb_le in Eo.
    destruct (float_limit <=? Z.abs chunk_size) eqn:Ef; [reflexivity |].
    apply Z.leb_gt in Ef. lia.
  - apply Z.leb_gt in Eo.
    destruct (float_limit <=? Z.abs chunk_size) eqn:Ef;
      [apply Z.leb_le in Ef; lia |].
    destruct (chunk_size =? 0) eqn:E; [reflexivity |].
    apply Z.eqb_neq in E. eexists. split; [reflexivity |].
    unfold __next__. cbn [GroupedIterator.itr GroupedIterator.chunk_size].
    replace (Z.to_nat chunk_size) with 0%nat by lia. reflexivity.
Qed.

(** A chunk size too large for [float] is refused as well. *)
Lemma grouped_iterator_huge_chunk_size (iterable : list A) (chunk_size : Z) :
  float_limit <= chunk_size ->
  __init__ iterable chunk_size = Raise OverflowError.
Proof.
  intros Hc. unfold __init__, float_overflows.
  destruct (float_limit <=? Z.abs chunk_size) eqn:Ef; [reflexivity |].
  apply Z.leb_gt in Ef. lia.
Qed.
End Facts.

Lemma grouped_iterator_chunks_witness :
  1 <= 3 < float_limit /\
  exists self gs,
    __init__ (range_list 7) 3 = Ok self /\
    groups self = Some gs /\
    concat gs = range_list 7 /\
    Forall (fun g => g <> [] /\ len g <= 3) gs /\
    Forall (fun g => len g = 3) (removelast gs) /\
    len gs = ceil_div (len (range_list 7)) 3.
Proof.
  split; [split; [lia | vm_compute; reflexivity] |].
  apply (grouped_iterator_chunks (range_list 7) 3).
  split; [lia | vm_compute; reflexivity].
Defined.

Lemma grouped_iterator_bad_chunk_size_witness :
  -2 <= 0 /\
  exists self,
    __init__ (range_list 7) (-2) = Ok self /\
    __next__ self = (Ok [], self).
Proof.
  split; [lia |].
  apply (grouped_iterator_bad_chunk_size (range_list 7) (-2)). lia.
Defined.

End GroupedFacts.

(** ** infer_language_pair *)

Module LanguagePairFacts.
Import LanguagePair.

Lemma split_on_nonempty (sep : Ascii.ascii) (s : string) : split_on sep s <> [].
Proof.
  destruct s as [| c s]; simpl; [discriminate |].
  destruct (Ascii.eqb c sep); [discriminate |].
  destruct (split_on sep s); discriminate.
Qed.

(** The first part has no separator, and the other parts are the split of
    what follows the first separator. *)
Lemma split_on_cons (sep : Ascii.ascii) (s : string) :
  forall p ps,
    split_on sep s = p :: ps ->
    contains sep p = false /\
    ((ps = [] /\ s = p) \/
     (exists s', s = String.append p (String sep s') /\ split_on sep s' = ps)).
Proof.
  induction s as [| c s IH]; intros p ps H.
  - simpl in H. injection H as <- <-. split; [reflexivity |]. now left.
  - cbn [split_on] in H. destruct (Ascii.eqb c sep) eqn:Ec.
    + apply Ascii.eqb_eq in Ec. subst c. injection H as <- <-.
      split; [reflexivity |]. right. exists s. now split.
    + destruct (split_on sep s) as [| q qs] eqn:Hs;
        [now apply split_on_nonempty in Hs |].
      injection H as <- <-.
      destruct (IH q qs eq_refl) as [Hq Hcase].
      split; [cbn [contains]; now rewrite Ec, Hq |].
      destruct Hcase as [[-> ->] | (s' & -> & Hs')].
      * now left.
      * right. exists s'. now split.
Qed.

Lemma append_nil (s : string) : String.append EmptyString s = s.
Proof. reflexivity. Qed.

Lemma append_cons (c : Ascii.ascii) (a s : string) :
  String.append (String c a) s = String c (String.append a s).
Proof. reflexivity. Qed.

Lemma append_assoc (a b c : string) :
  String.append (String.append a b) c = String.append a (String.append b c).
Proof.
  induction a as [| x a IH]; [reflexivity |].
  rewrite !append_cons. now rewrite IH.
Qed.

Lemma split_on_plain (sep : Ascii.ascii) (s : string) :
  contains sep s = false -> split_on sep s = [s].
Proof.
  induction s as [| c s IH]; intros H; [reflexivity |].
  cbn [contains] in H. apply orb_false_iff in H as [Hc Hs].
  cbn [split_on]. rewrite Hc, (IH Hs). reflexivity.
Qed.

Lemma split_on_append (sep : Ascii.ascii) (p s : string) :
  contains sep p = false ->
  split_on sep (String.append p (String sep s)) = p :: split_on sep s.
Proof.
  induction p as [| c p IH]; intros H.
  - rewrite append_nil. cbn [split_on]. now rewrite Ascii.eqb_refl.
  - cbn [contains] in H. apply orb_false_iff in H as [Hc Hp].
    rewrite append_cons. cbn [split_on]. rewrite Hc, (IH Hp). reflexivity.
Qed.

Lemma contains_append (c : Ascii.ascii) (a b : string) :
  contains c (String.append a b) = contains c a || contains c b.
Proof.
  induction a as [| x a IH]; [reflexivity |].
  rewrite append_cons. cbn [contains]. now rewrite IH, orb_assoc.
Qed.

Lemma pair_of_sound (filename a b : string) :
  pair_of filename = Some (a, b) ->
  exists first rest,
    filename = pair_name first a b rest /\
    contains dot first = false /\ plain a /\ plain b.
Proof.
  unfold pair_of. cbv zeta.
  destruct (split_on dot filename) as [| p0 ps] eqn:H0;
    [now apply split_on_nonempty in H0 |].
  destruct (3 <=? len (p0 :: ps)) eqn:E; [| discriminate].
  apply Z.leb_le in E.
  destruct ps as [| p1 ps]; [unfold len in E; simpl in E; lia |].
  destruct ps as [| p2 ps]; [unfold len in E; simpl in E; lia |].
  cbn [nth].
  destruct (split_on dash p1) as [| a' [| b' [| ? ?]]] eqn:H1; try discriminate.
  intros [= <- <-].
  destruct (split_on_cons dot filename _ _ H0)
    as [Hp0 [[? _] | (s1 & -> & Hs1)]]; [discriminate |].
  destruct (split_on_cons dot s1 _ _ Hs1)
    as [Hp1 [[? _] | (s2 & -> & Hs2)]]; [discriminate |].
  destruct (split_on_cons dash p1 _ _ H1)
    as [Ha [[? _] | (t & -> & Ht)]]; [discriminate |].
  destruct (split_on_cons dash t _ _ Ht)
    as [Hb [[_ ->] | (t' & _ & Ht')]];
    [| now apply split_on_nonempty in Ht'].
  rewrite contains_append in Hp1. cbn [contains] in Hp1.
  apply orb_false_iff in Hp1 as [Hda Hp1].
  apply orb_false_iff in Hp1 as [_ Hdb].
  exists p0, s2. unfold pair_name, plain.
  rewrite append_assoc, append_cons.
  repeat split; assumption.
Qed.

Lemma pair_of_complete (first a b rest : string) :
  contains dot first = false -> plain a -> plain b ->
  pair_of (pair_name first a b rest) = Some (a, b).
Proof.
  intros Hf [Hda Ha] [Hdb Hb]. unfold pair_of, pair_name. cbv zeta.
  rewrite split_on_append by exact Hf.
  assert (Hmid : contains dot (String.append a (String dash b)) = false).
  { rewrite contains_append. cbn [contains]. rewrite Hda, Hdb. reflexivity. }
  replace (String.append a (String dash (String.append b (String dot rest))))
    with (String.append (String.append a (String dash b)) (String dot rest))
    by (rewrite append_assoc, append_cons; reflexivity).
  rewrite split_on_append by exact Hmid.
  destruct (split_on dot rest) as [| r rs] eqn:Hr;
    [now apply split_on_nonempty in Hr |].
  assert ((3 <=? len (first :: String.append a (String dash b) :: r :: rs))
          = true) as ->.
  { apply Z.leb_le. unfold len. simpl. lia. }
  cbn [nth]. rewrite split_on_append by exact Ha.
  rewrite split_on_plain by exact Hb. reflexivity.
Qed.

(** The answer holds both languages or neither. *)
Lemma infer_language_pair_both_or_neither (listdir : list string) :
  infer_language_pair listdir = (None, None) \/
  exists a b, infer_language_pair listdir = (Some a, Some b).
Proof.
  induction listdir as [| f rest IH]; [now left |].
  cbn [infer_language_pair].
  destruct (pair_of f) as [[a0 b0] |]; [| exact IH].
  right. now exists a0, b0.
Qed.

(** X27.  [infer_language_pair] answers with both languages or with
    neither.  When it answers [(src, tgt)], some file of the directory is
    named [first.src-tgt.rest], where [first], [src] and [tgt] hold no dot
    and [src] and [tgt] no dash; when the directory holds a file named so,
    it does answer with a pair. *)
Theorem infer_language_pair_reads_names (listdir : list string) :
  (forall a b,
      infer_language_pair listdir = (Some a, Some b) ->
      exists filename first rest,
        In filename listdir /\ filename = pair_name first a b rest /\
        contains dot first = false /\ plain a /\ plain b) /\
  (forall first a b rest,
      In (pair_name first a b rest) listdir ->
      contains dot first = false -> plain a -> plain b ->
      exists a' b', infer_language_pair listdir = (Some a', Some b')) /\
  (infer_language_pair listdir = (None, None) \/
   exists a b, infer_language_pair listdir = (Some a, Some b)).
Proof.
  induction listdir as [| f rest IH].
  - split; [intros a b H; discriminate |].
    split; [intros ? ? ? ? [] |]. now left.
  - destruct IH as (IH1 & IH2 & IH3). cbn [infer_language_pair].
    destruct (pair_of f) as [[a0 b0] |] eqn:Hp.
    + split.
      { intros a b [= <- <-].
        destruct (pair_of_sound f a0 b0 Hp) as (first & rest' & H).
        exists f, first, rest'. split; [now left | exact H]. }
      split; [intros; now exists a0, b0 |].
      right. now exists a0, b0.
    + split.
      { intros a b H. destruct (IH1 a b H) as (fn & first & rest' & Hin & H').
        exists fn, first, rest'. split; [now right | exact H']. }
      split; [| exact IH3].
      intros first a b rest' [Heq | Hin] Hf Ha Hb.
      * rewrite Heq, pair_of_complete in Hp by assumption. discriminate.
      * eapply IH2; eassumption.
Qed.

(** X28.  The caller in [setup_task] keeps the languages it was given only
    when both were given; as soon as one is missing, both are taken from
    the directory, and the one that was given is dropped.  It fails exactly
    when a language is missing and the directory names no pair. *)
Theorem setup_languages_overrides (source_lang target_lang : option string)
        (listdir : list string) :
  match source_lang, target_lang with
  | Some s, Some t => setup_languages source_lang target_lang listdir = Some (s, t)
  | _, _ =>
      setup_languages source_lang target_lang listdir
      = setup_languages None None listdir /\
      (setup_languages source_lang target_lang listdir = None <->
       infer_language_pair listdir = (None, None))
  end.
Proof.
  assert (H : setup_languages None None listdir = None <->
              infer_language_pair listdir = (None, None)).
  { unfold setup_languages.
    destruct (infer_language_pair_both_or_neither listdir)
      as [-> | (a & b & ->)];
      split; congruence. }
  destruct source_lang, target_lang; try reflexivity; split;
    try reflexivity; exact H.
Qed.

End LanguagePairFacts.
